(** * prometheus-nginxlog-exporter: the per-line pipeline, verified

    A shallow embedding of package [main] (the per-source loop
    [processSource] with [filterFields], [observeCurrentUsers],
    [observeMetrics], [floatFromFields] and [floatFromFieldsMulti]) and
    of [pkg/config/struct_namespace.go] ([OrderLabels]).

    Conventions of the embedding:
    - a Go [string] is a byte sequence: Rocq's [string];
    - a Go [map[string]string] is a [gmap string string];
    - a Go [float64] is a [spec_float] at precision 53 / emax 1024, with
      the IEEE-754 operations of [SpecFloat];
    - a Go [error] is its message; [(T, error)] results are [option]s or
      carry an [option error], [None] standing for [nil];
    - calls into the metrics collection, the logger and standard output
      are recorded, in program order, as a list of [effect]s. *)

From Stdlib Require Import ZArith Ascii String SpecFloat.
From stdpp Require Import gmap strings list fin_maps sorting.

Local Open Scope Z_scope.

(** ** float64 *)

Module Float64.
Definition float64 : Type := spec_float.

Definition prec : Z := 53.
Definition emax : Z := 1024.

Definition zero : float64 := S754_zero false.
Definition add : float64 → float64 → float64 := SFadd prec emax.
Definition div : float64 → float64 → float64 := SFdiv prec emax.
Definition eqb : float64 → float64 → bool := SFeqb.

(** The conversion [float64(n)] of an integer. *)
Definition of_int (n : Z) : float64 := binary_normalize prec emax n 0 false.

(** The float64 nearest to [m / 10^k]: the value of the decimal literal
    with digits [m] and [k] digits after the point (both operands of the
    division are exact for the small literals used below). *)
Definition decimal (m : Z) (k : nat) : float64 :=
  div (of_int m) (of_int (10 ^ Z.of_nat k)).

(** Left-to-right summation starting from zero, as a [sum += f] loop. *)
Definition sum (fs : list float64) : float64 := foldl add zero fs.

(** Two floats denote the same number: they are identical, or compare
    equal under [==] (which identifies the two zeros). *)
Definition same (x y : float64) : Prop := x = y ∨ eqb x y = true.
End Float64.
Export Float64(float64).

(** ** The pieces of Go's [strings] package that the pipeline calls *)

Module GoStrings.

(** [strings.FieldsFunc(s, f)]: the maximal non-empty substrings of [s]
    between the positions where [f] holds.  The predicate of the
    pipeline only accepts ASCII runes, which never occur inside the
    encoding of another rune, so the split is done on bytes. *)
Fixpoint fieldsFrom (f : ascii → bool) (cur : string) (s : string) : list string :=
  match s with
  | EmptyString => match cur with EmptyString => [] | _ => [cur] end
  | String c r =>
      if f c then
        match cur with
        | EmptyString => fieldsFrom f "" r
        | _ => cur :: fieldsFrom f "" r
        end
      else fieldsFrom f (cur +:+ String c "") r
  end.

Definition FieldsFunc (s : string) (f : ascii → bool) : list string :=
  fieldsFrom f "" s.

Definition byte_is (c : ascii) (n : N) : bool := N.eqb (N_of_ascii c) n.

(** The table [asciiSpace]: tab, newline, vertical tab, form feed,
    carriage return and space. *)
Definition asciiSpace (c : ascii) : bool :=
  byte_is c 0x09 || byte_is c 0x0A || byte_is c 0x0B || byte_is c 0x0C
  || byte_is c 0x0D || byte_is c 0x20.

(** UTF-8 encodings of the other runes of [unicode.IsSpace]:
    U+0085 and U+00A0 take two bytes ... *)
Definition space2 (c1 c2 : ascii) : bool :=
  byte_is c1 0xC2 && (byte_is c2 0x85 || byte_is c2 0xA0).

(** ... and U+1680, U+2000..U+200A, U+2028, U+2029, U+202F, U+205F and
    U+3000 take three. *)
Definition space3 (c1 c2 c3 : ascii) : bool :=
  (byte_is c1 0xE1 && byte_is c2 0x9A && byte_is c3 0x80)
  || (byte_is c1 0xE2 && byte_is c2 0x80 &&
        ((N.leb 0x80 (N_of_ascii c3) && N.leb (N_of_ascii c3) 0x8A)
         || byte_is c3 0xA8 || byte_is c3 0xA9 || byte_is c3 0xAF))
  || (byte_is c1 0xE2 && byte_is c2 0x81 && byte_is c3 0x9F)
  || (byte_is c1 0xE3 && byte_is c2 0x80 && byte_is c3 0x80).

(** Drops the white-space runes at the front of [s].  With [back] set,
    [s] is a reversed string and the bytes of a rune arrive last-first,
    which is how the runes at the end of a string are dropped. *)
Fixpoint trimRunes (back : bool) (s : string) : string :=
  match s with
  | EmptyString => ""
  | String c1 r1 =>
      if asciiSpace c1 then trimRunes back r1 else
      match r1 with
      | EmptyString => s
      | String c2 r2 =>
          if (if back then space2 c2 c1 else space2 c1 c2)
          then trimRunes back r2 else
          match r2 with
          | EmptyString => s
          | String c3 r3 =>
              if (if back then space3 c3 c2 c1 else space3 c1 c2 c3)
              then trimRunes back r3 else s
          end
      end
  end.

(** [strings.TrimSpace(s)]: [s] without leading and trailing white
    space, as defined by Unicode. *)
Definition TrimSpace (s : string) : string :=
  String.rev (trimRunes true (String.rev (trimRunes false s))).

End GoStrings.
Import GoStrings.

(** ** Effects of the pipeline *)

Definition error : Type := string.

(** The label-keyed metrics of [metrics.Collection]. *)
Inductive metric : Type :=
  | CountTotal
  | CurrentUsers
  | ResponseBytesTotal
  | RequestBytesTotal
  | UpstreamSeconds
  | UpstreamSecondsHist
  | UpstreamConnectSeconds
  | UpstreamConnectSecondsHist
  | ResponseSeconds
  | ResponseSecondsHist.

(** What the pipeline does to the outside, one constructor per kind of
    call: [fmt.Println], [logger.Errorf], [metrics.ParseErrorsTotal.Inc()]
    and, for a labelled metric [m], [m.WithLabelValues(lvs...)] followed by
    [Inc()], [Add(v)], [Observe(v)] or [Set(v)].  What the metrics library
    does with a call is not modelled. *)
Inductive effect : Type :=
  | Println (line : string)
  | LogErrorf (msg : string)
  | ParseErrorsTotal_Inc
  | Inc (m : metric) (labelValues : list string)
  | Add (m : metric) (labelValues : list string) (v : float64)
  | Observe (m : metric) (labelValues : list string) (v : float64)
  | Set_ (m : metric) (labelValues : list string) (v : float64).

(** The updates of label-keyed metrics, as opposed to the parse-error
    counter and to log output. *)
Definition is_update (e : effect) : bool :=
  match e with
  | Inc _ _ | Add _ _ _ | Observe _ _ _ | Set_ _ _ _ => true
  | _ => false
  end.

Definition is_parse_error (e : effect) : bool :=
  match e with ParseErrorsTotal_Inc => true | _ => false end.

(** The metric updates among some effects, and the number of increments
    of the parse-error counter. *)
Definition updates (effects : list effect) : list effect :=
  filter (λ e, is_update e = true) effects.

Definition parseErrors (effects : list effect) : nat :=
  length (filter (λ e, is_parse_error e = true) effects).

(** ** Numeric extraction *)

Definition isDelimiter (r : ascii) : bool :=
  Ascii.eqb r "," || Ascii.eqb r ":".

Definition parseError (val : string) : error :=
  "value '" +:+ val +:+ "' could not be parsed into float".

Section Extractors.
(** [strconv.ParseFloat(s, 64)]; [None] when it returns an error. *)
Variable ParseFloat : string → option float64.

Definition floatFromFields (fields : gmap string string) (name : string)
  : float64 * bool * option error :=
  match fields !! name with
  | None => (Float64.zero, false, None)
  | Some val =>
      if decide (val = "-") then (Float64.zero, false, None)
      else match ParseFloat val with
           | None => (Float64.zero, false, Some (parseError val))
           | Some f => (f, true, None)
           end
  end.

(** The loop of [floatFromFieldsMulti] over the fields of [val]. *)
Fixpoint sumFields (val : string) (sum : float64) (vs : list string)
  : float64 * bool * option error :=
  match vs with
  | [] => (sum, true, None)
  | v :: vs =>
      let v := TrimSpace v in
      if decide (v = "-") then sumFields val sum vs
      else match ParseFloat v with
           | None => (Float64.zero, false, Some (parseError val))
           | Some f => sumFields val (Float64.add sum f) vs
           end
  end.

Definition floatFromFieldsMulti (fields : gmap string string) (name : string)
  : float64 * bool * option error :=
  let '(f, ok, err) := floatFromFields fields name in
  match err with
  | None => (f, ok, None)
  | Some _ =>
      match fields !! name with
      | None => (Float64.zero, false, None)
      | Some val => sumFields val Float64.zero (FieldsFunc val isDelimiter)
      end
  end.
End Extractors.

Definition extractor : Type :=
  gmap string string → string → float64 * bool * option error.

Definition observeMetrics (fields : gmap string string) (name : string)
    (extract : extractor) : float64 * bool * list effect :=
  match extract fields name with
  | (observation, true, _) => (observation, true, [])
  | (_, false, Some err) =>
      (Float64.zero, false,
       [LogErrorf ("error while parsing $" +:+ name +:+ ": " +:+ err);
        ParseErrorsTotal_Inc])
  | (_, false, None) => (Float64.zero, false, [])
  end.

(** ** Configuration (pkg/config/struct_namespace.go) *)

Record MetricsConfig : Type := {
  CurrentUserInterval : Z;
  DisableCountTotal : bool;
  DisableResponseBytesTotal : bool;
  DisableRequestBytesTotal : bool;
  DisableUpstreamSeconds : bool;
  DisableUpstreamConnectSeconds : bool;
  DisableResponseSeconds : bool
}.

(** The fields of [NamespaceConfig] that the pipeline and [OrderLabels]
    read or write.  The type of the relabeling configurations is declared
    in a file that is not among the sources, and is left open. *)
Record NamespaceConfig {RelabelConfig : Type} : Type := {
  Name : string;
  Labels : gmap string string;
  RelabelConfigs : list RelabelConfig;
  Metrics : MetricsConfig;
  PrintLog : bool;
  OrderedLabelNames : list string;
  OrderedLabelValues : list string
}.
Global Arguments NamespaceConfig : clear implicits.

(** [sort.Strings]: increasing order of [String.le], the byte-wise
    lexicographic order that Go's [<] on strings is.  Keys of a map are
    distinct and the order is total, so every sorting algorithm returns
    the list that this one does (see [sort_Strings_unique]). *)
Definition sort_Strings (keys : list string) : list string :=
  merge_sort String.le keys.

(** [range m] yields each key of [m] once, in an order that Go leaves
    unspecified: [iteration] is one such order. *)
Definition ranges (iteration : list string) (m : gmap string string) : Prop :=
  iteration ≡ₚ elements (dom m).

(** [values[i] = c.Labels[k]] for [i, k := range keys]; a missing key
    reads as the empty string. *)
Fixpoint fillValues (labels : gmap string string) (i : nat)
    (keys : list string) (values : list string) : list string :=
  match keys with
  | [] => values
  | k :: keys =>
      fillValues labels (S i) keys (<[i := default "" (labels !! k)]> values)
  end.

Definition OrderLabels {RC : Type} (iteration : list string)
    (c : NamespaceConfig RC) : NamespaceConfig RC :=
  let keys := foldl (λ keys k, keys ++ [k]) [] iteration in
  let values := replicate (size (Labels c)) "" in
  let keys := sort_Strings keys in
  let values := fillValues (Labels c) 0 keys values in
  {| Name := Name c; Labels := Labels c; RelabelConfigs := RelabelConfigs c;
     Metrics := Metrics c; PrintLog := PrintLog c;
     OrderedLabelNames := keys; OrderedLabelValues := values |}.

(** ** Field filter *)

Definition disabled (field : string) (mc : MetricsConfig) : bool :=
  if decide (field = "body_bytes_sent") then DisableResponseBytesTotal mc
  else if decide (field = "request_length") then DisableRequestBytesTotal mc
  else if decide (field = "upstream_response_time") then DisableUpstreamSeconds mc
  else if decide (field = "upstream_connect_time") then DisableUpstreamConnectSeconds mc
  else if decide (field = "request_time") then DisableResponseSeconds mc
  else false.

Definition filterFields {RC : Type} (fields : gmap string string)
    (nsCfg : NamespaceConfig RC) : gmap string string :=
  map_fold
    (λ field value result,
       if disabled field (Metrics nsCfg) then result
       else <[field := value]> result)
    ∅ fields.

(** ** Distinct users *)

Definition observeCurrentUsers (fields : gmap string string)
    (users : gmap string Z) (now : Z) : float64 * bool * gmap string Z :=
  match fields !! "remote_addr" with
  | None => (Float64.zero, false, users)
  | Some remoteAddr =>
      if decide (remoteAddr = "") then (Float64.zero, false, users) else
      match fields !! "http_user_agent" with
      | None => (Float64.zero, false, users)
      | Some userAgent =>
          if decide (userAgent = "") then (Float64.zero, false, users) else
          let userId := remoteAddr +:+ "::" +:+ userAgent in
          let users := <[userId := now]> users in
          (Float64.of_int (Z.of_nat (size users)), true, users)
      end
  end.

(** ** Relabeling rules *)

(** Modelled from the spec: package [relabeling] is not among the sources.
    A rule has a source field name, a target label name, a value
    transform and the flags OnlyCounter and Exclude; the transform either
    yields the label value or fails ([None]). *)
Record Relabeling : Type := {
  TargetLabel : string;
  SourceValue : string;
  OnlyCounter : bool;
  Exclude : bool;
  Map : string → option string
}.

(** What rule [r] writes into its slot on a parsed and filtered line, if
    anything: the transform of the source field when the field is there
    and the transform succeeds. *)
Definition written (r : Relabeling) (fields : gmap string string) : option string :=
  fields !! SourceValue r ≫= Map r.

(** ** The source pipeline *)

Definition maxStaticLabels : nat := 128.

(** [copy(dst, src)]: overwrites the first [min (len dst) (len src)]
    elements of [dst]. *)
Definition copy {A : Type} (dst src : list A) : list A :=
  take (length dst) src ++ drop (length src) dst.

(** The variables of [processSource] that live across iterations: the
    label vector, the tracker of [UsersUpdated] and whether the pruning
    ticker has been created.  The goroutine that the ticker drives prunes
    the tracker concurrently and is not part of this sequential model;
    what is proved about one iteration holds for any tracker that the
    iteration finds. *)
Record loopState : Type := {
  labelValues : list string;
  users : gmap string Z;
  ticker : bool
}.

Section Pipeline.
Context {RelabelConfig : Type}.

(** What [processSource] takes from outside this file: the functions of
    package [relabeling], the line parser and [strconv.ParseFloat]. *)
Variable NewRelabelings : list RelabelConfig → list Relabeling.
Variable DefaultRelabelings : list Relabeling.
Variable UniqueRelabelings : list Relabeling → list Relabeling.
Variable StripExcluded : list Relabeling → list Relabeling.
Variable StripOnlyCounterValues : list string → list Relabeling → list string.
Variable ParseString : string → gmap string string + error.
Variable ParseFloat : string → option float64.

Variable nsCfg : NamespaceConfig RelabelConfig.
Variable hasCounterOnlyLabels : bool.

Definition relabelings : list Relabeling :=
  StripExcluded
    (UniqueRelabelings (NewRelabelings (RelabelConfigs nsCfg) ++ DefaultRelabelings)).

Definition staticLabelValues : list string := OrderedLabelValues nsCfg.
Definition totalLabelCount : nat :=
  (length staticLabelValues + length relabelings)%nat.
Definition relabelLabelOffset : nat := length staticLabelValues.

(** [for i := range relabelings], from index [i] on.  Every index
    written is within the vector ([relabel_writes_in_range]), so the
    update never falls outside it. *)
Fixpoint relabel (rs : list Relabeling) (i : nat) (fields : gmap string string)
    (labelValues : list string) : list string :=
  match rs with
  | [] => labelValues
  | r :: rs =>
      let labelValues :=
        match fields !! SourceValue r with
        | Some str =>
            match Map r str with
            | Some mapped => <[(i + relabelLabelOffset)%nat := mapped]> labelValues
            | None => labelValues
            end
        | None => labelValues
        end in
      relabel rs (S i) fields labelValues
  end.

(** [if v, ok := observeMetrics(...); ok { update v }] *)
Definition observe (fields : gmap string string) (name : string)
    (extract : extractor) (update : float64 → list effect) : list effect :=
  let '(v, ok, logged) := observeMetrics fields name extract in
  logged ++ (if ok then update v else []).

(** The five numeric observations of a line, in program order. *)
Definition observeFields (fields : gmap string string)
    (notCounterValues : list string) : list effect :=
  observe fields "body_bytes_sent" (floatFromFields ParseFloat)
    (λ v, [Add ResponseBytesTotal notCounterValues v])
  ++ observe fields "request_length" (floatFromFields ParseFloat)
    (λ v, [Add RequestBytesTotal notCounterValues v])
  ++ observe fields "upstream_response_time" (floatFromFieldsMulti ParseFloat)
    (λ v, [Observe UpstreamSeconds notCounterValues v;
           Observe UpstreamSecondsHist notCounterValues v])
  ++ observe fields "upstream_connect_time" (floatFromFieldsMulti ParseFloat)
    (λ v, [Observe UpstreamConnectSeconds notCounterValues v;
           Observe UpstreamConnectSecondsHist notCounterValues v])
  ++ observe fields "request_time" (floatFromFields ParseFloat)
    (λ v, [Observe ResponseSeconds notCounterValues v;
           Observe ResponseSecondsHist notCounterValues v]).

(** The distinct-user block; [now] is what [time.Now().Unix()] reads. *)
Definition observeUsers (fields : gmap string string)
    (notCounterValues : list string) (st : loopState) (now : Z)
  : gmap string Z * bool * list effect :=
  if 0 <? CurrentUserInterval (Metrics nsCfg) then
    let '(v, ok, users) := observeCurrentUsers fields (users st) now in
    (users, true, if ok then [Set_ CurrentUsers notCounterValues v] else [])
  else (users st, ticker st, []).

(** One iteration of [for line := range t.Lines()]. *)
Definition processLine (st : loopState) (line : string) (now : Z)
  : loopState * list effect :=
  let printed := if PrintLog nsCfg then [Println line] else [] in
  match ParseString line with
  | inr err =>
      (st,
       printed ++
       [LogErrorf ("error while parsing line '" +:+ line +:+ "': " +:+ err);
        ParseErrorsTotal_Inc])
  | inl fields =>
      let fields := filterFields fields nsCfg in
      let labelValues := relabel relabelings 0 fields (labelValues st) in
      let notCounterValues :=
        if hasCounterOnlyLabels
        then StripOnlyCounterValues labelValues relabelings
        else labelValues in
      let counted :=
        if DisableCountTotal (Metrics nsCfg) then []
        else [Inc CountTotal labelValues] in
      let '(users, ticker, gauged) :=
        observeUsers fields notCounterValues st now in
      ({| labelValues := labelValues; users := users; ticker := ticker |},
       printed ++ counted ++ gauged ++ observeFields fields notCounterValues)
  end.

(** The loop over the lines delivered so far, each with the clock
    reading of its iteration. *)
Fixpoint loop (st : loopState) (lines : list (string * Z))
  : loopState * list effect :=
  match lines with
  | [] => (st, [])
  | (line, now) :: lines =>
      let '(st, effects) := processLine st line now in
      let '(st', effects') := loop st lines in
      (st', effects ++ effects')
  end.

(** What rule [r] writes into its slot when [line] is processed. *)
Definition writes (r : Relabeling) (line : string) : option string :=
  match ParseString line with
  | inl fields => written r (filterFields fields nsCfg)
  | inr _ => None
  end.

(** The value most recently written by rule [r] over [lines], or
    [current] when none of them wrote. *)
Definition carried (r : Relabeling) (lines : list (string * Z))
    (current : string) : string :=
  foldl (λ current line, default current (writes r line.1)) current lines.

(** The state in which the loop is entered. *)
Definition initial : loopState :=
  {| labelValues := copy (replicate totalLabelCount "") staticLabelValues;
     users := ∅;
     ticker := false |}.

(** [processSource] on a source that delivers [lines] and is then
    closed: the returned error and the effects performed. *)
Definition processSource (lines : list (string * Z)) : option error * list effect :=
  if decide (maxStaticLabels < totalLabelCount)%nat then
    (Some "configured label count exceeds the maximum count of 128", [])
  else (None, (loop initial lines).2).
End Pipeline.

(** ** Vocabulary of the specification *)

Fixpoint all_bytes (p : ascii → bool) (s : string) : bool :=
  match s with
  | EmptyString => true
  | String c r => p c && all_bytes p r
  end.

(** The bytes that occur in the literals [strconv.ParseFloat] accepts
    (decimal and hexadecimal numbers, exponents, "inf", "infinity",
    "nan", signs and digit separators): ASCII letters and digits and the
    four characters plus, minus, point and underscore. *)
Definition floatByte (c : ascii) : bool :=
  let n := N_of_ascii c in
  (N.leb 0x30 n && N.leb n 0x39) || (N.leb 0x41 n && N.leb n 0x5A)
  || (N.leb 0x61 n && N.leb n 0x7A)
  || N.eqb n 0x2B || N.eqb n 0x2D || N.eqb n 0x2E || N.eqb n 0x5F.

(** What the pipeline relies on about [strconv.ParseFloat]: it consumes
    its whole argument, so an accepted string is not empty and holds
    neither white space nor a comma or colon. *)
Definition float_syntax (ParseFloat : string → option float64) : Prop :=
  ∀ s f, ParseFloat s = Some f → s ≠ "" ∧ all_bytes floatByte s = true.

(** The entries of a multi-value field: its comma- or colon-separated
    pieces, trimmed, without those that read "-". *)
Definition entries (val : string) : list string :=
  filter (λ v, v ≠ "-") (TrimSpace <$> FieldsFunc val isDelimiter).

Definition numericFields : list string :=
  ["body_bytes_sent"; "request_length"; "upstream_response_time";
   "upstream_connect_time"; "request_time"].

(** The extractor that [processSource] pairs with a numeric field. *)
Definition extractorOf (ParseFloat : string → option float64) (name : string)
  : extractor :=
  if decide (name = "upstream_response_time") then floatFromFieldsMulti ParseFloat
  else if decide (name = "upstream_connect_time") then floatFromFieldsMulti ParseFloat
  else floatFromFields ParseFloat.

(** The metric updates that [processSource] performs with an observation
    of a numeric field. *)
Definition updatesOf (name : string) (notCounterValues : list string)
    (v : float64) : list effect :=
  if decide (name = "body_bytes_sent") then
    [Add ResponseBytesTotal notCounterValues v]
  else if decide (name = "request_length") then
    [Add RequestBytesTotal notCounterValues v]
  else if decide (name = "upstream_response_time") then
    [Observe UpstreamSeconds notCounterValues v;
     Observe UpstreamSecondsHist notCounterValues v]
  else if decide (name = "upstream_connect_time") then
    [Observe UpstreamConnectSeconds notCounterValues v;
     Observe UpstreamConnectSecondsHist notCounterValues v]
  else if decide (name = "request_time") then
    [Observe ResponseSeconds notCounterValues v;
     Observe ResponseSecondsHist notCounterValues v]
  else [].

(** The part of a line's effects that belongs to one numeric field. *)
Definition fieldBlock (ParseFloat : string → option float64) (name : string)
    (fields : gmap string string) (notCounterValues : list string) : list effect :=
  observe fields name (extractorOf ParseFloat name) (updatesOf name notCounterValues).

(** The same effect under another label vector. *)
Definition withLabels (labels : list string) (e : effect) : effect :=
  match e with
  | Inc m _ => Inc m labels
  | Add m _ v => Add m labels v
  | Observe m _ v => Observe m labels v
  | Set_ m _ v => Set_ m labels v
  | Println _ | LogErrorf _ | ParseErrorsTotal_Inc => e
  end.

(** ** Sample instances *)

Module Sample.
(** A reader of plain decimal literals (digits with at most one point)
    that are exactly representable as a quotient of two float64
    integers, on which it returns the nearest float64. *)
Fixpoint decimalDigits (s : string) (m : Z) (k : option nat) (seen : bool)
  : option (Z * nat) :=
  match s with
  | EmptyString => if seen then Some (m, default 0%nat k) else None
  | String c r =>
      match Ascii.is_nat c with
      | Some d => decimalDigits r (10 * m + Z.of_nat d) (S <$> k) true
      | None =>
          if Ascii.eqb c "." && bool_decide (k = None)
          then decimalDigits r m (Some 0%nat) seen
          else None
      end
  end.

Definition ParseFloat (s : string) : option float64 :=
  match decimalDigits s 0 None false with
  | Some (m, k) =>
      if (m <? 2 ^ 53) && bool_decide (k ≤ 22)%nat
      then Some (Float64.decimal m k) else None
  | None => None
  end.

(** A line parser for lines of space-separated [field=value] pairs; a
    piece without "=" does not parse. *)
Fixpoint splitAtEq (key : string) (s : string) : option (string * string) :=
  match s with
  | EmptyString => None
  | String c r =>
      if Ascii.eqb c "=" then Some (key, r)
      else splitAtEq (key +:+ String c "") r
  end.

Definition ParseString (line : string) : gmap string string + error :=
  foldr
    (λ piece parsed,
       match parsed, splitAtEq "" piece with
       | inl fields, Some (k, v) => inl (<[k := v]> fields)
       | inl _, None => inr ("malformed field '" +:+ piece +:+ "'")
       | inr err, _ => inr err
       end)
    (inl ∅) (FieldsFunc line (λ c, Ascii.eqb c " ")).

Definition passthrough (source target : string) : Relabeling :=
  {| TargetLabel := target; SourceValue := source; OnlyCounter := false;
     Exclude := false; Map := Some |}.

Definition NewRelabelings (cfgs : list Relabeling) : list Relabeling := cfgs.
Definition DefaultRelabelings : list Relabeling := [].
Definition UniqueRelabelings (rs : list Relabeling) : list Relabeling := rs.
Definition StripExcluded (rs : list Relabeling) : list Relabeling :=
  filter (λ r, Exclude r = false) rs.
Definition StripOnlyCounterValues (values : list string)
    (rs : list Relabeling) : list string := values.

Definition metricsAll : MetricsConfig :=
  {| CurrentUserInterval := 300; DisableCountTotal := false;
     DisableResponseBytesTotal := false; DisableRequestBytesTotal := false;
     DisableUpstreamSeconds := false; DisableUpstreamConnectSeconds := false;
     DisableResponseSeconds := false |}.

Definition metricsUsersOnly : MetricsConfig :=
  {| CurrentUserInterval := 300; DisableCountTotal := true;
     DisableResponseBytesTotal := true; DisableRequestBytesTotal := true;
     DisableUpstreamSeconds := true; DisableUpstreamConnectSeconds := true;
     DisableResponseSeconds := true |}.

Definition metricsNoDurations : MetricsConfig :=
  {| CurrentUserInterval := 0; DisableCountTotal := false;
     DisableResponseBytesTotal := false; DisableRequestBytesTotal := false;
     DisableUpstreamSeconds := true; DisableUpstreamConnectSeconds := true;
     DisableResponseSeconds := true |}.

(** A namespace with [n] static label values and one relabeling rule. *)
Definition namespace (n : nat) (mc : MetricsConfig) : NamespaceConfig Relabeling :=
  {| Name := "nginx"; Labels := ∅;
     RelabelConfigs := [passthrough "status" "status"];
     Metrics := mc; PrintLog := false;
     OrderedLabelNames := replicate n "l";
     OrderedLabelValues := replicate n "v" |}.

(** The pipeline over these instances. *)
Definition start (nsCfg : NamespaceConfig Relabeling) : loopState :=
  initial NewRelabelings DefaultRelabelings UniqueRelabelings StripExcluded nsCfg.

Definition step (nsCfg : NamespaceConfig Relabeling)
  : loopState → string → Z → loopState * list effect :=
  processLine NewRelabelings DefaultRelabelings UniqueRelabelings StripExcluded
    StripOnlyCounterValues ParseString ParseFloat nsCfg false.

Definition run (nsCfg : NamespaceConfig Relabeling)
  : loopState → list (string * Z) → loopState * list effect :=
  loop NewRelabelings DefaultRelabelings UniqueRelabelings StripExcluded
    StripOnlyCounterValues ParseString ParseFloat nsCfg false.

Definition source (nsCfg : NamespaceConfig Relabeling)
  : list (string * Z) → option error * list effect :=
  processSource NewRelabelings DefaultRelabelings UniqueRelabelings StripExcluded
    StripOnlyCounterValues ParseString ParseFloat nsCfg false.

Definition labelled : NamespaceConfig Relabeling :=
  {| Name := "nginx";
     Labels := {[ "zone" := "eu"; "app" := "shop"; "env" := "prod" ]};
     RelabelConfigs := []; Metrics := metricsAll; PrintLog := false;
     OrderedLabelNames := []; OrderedLabelValues := [] |}.
End Sample.

(** ** The pruning pass of the ticker goroutine *)

(** The value of a 64-bit signed integer computation. *)
Definition int64 (z : Z) : Z := (z + 2 ^ 63) `mod` 2 ^ 64 - 2 ^ 63.

(** [time.Now().Unix()-lastSeen > int64(interval)] *)
Definition expired (interval now lastSeen : Z) : bool :=
  interval <? int64 (now - lastSeen).

(** The loop of the goroutine over the tracker, under its lock: the
    entry being visited is deleted when it has expired.  The clock is
    read at every entry: [now user] is the reading at the entry of
    [user]. *)
Definition pruneUsers (interval : Z) (now : string → Z)
    (users : gmap string Z) : gmap string Z :=
  map_fold
    (λ user lastSeen users,
       if expired interval (now user) lastSeen then delete user users
       else users)
    users users.

(** One tick: the pruning pass, then the gauge is set to the size of
    the tracker, under the label vector that the goroutine has captured. *)
Definition tick {RC : Type} (nsCfg : NamespaceConfig RC) (now : string → Z)
    (notCounterValues : list string) (users : gmap string Z)
  : gmap string Z * list effect :=
  let users := pruneUsers (CurrentUserInterval (Metrics nsCfg)) now users in
  (users,
   [Set_ CurrentUsers notCounterValues (Float64.of_int (Z.of_nat (size users)))]).

(** ** The other methods of NamespaceConfig *)

Record SyslogSource : Type := {
  ListenAddress : string;
  Format : string;
  Tags : list string
}.

Record SourceData : Type := {
  Files : list string;
  Syslog : option SyslogSource
}.

(** [NamespaceConfig] with the fields that only the methods below touch:
    [core] holds the fields of the record above, [Source] is the field
    [SourceData], a [nil] map or pointer is [None], and [MetricsOverride]
    is its [Prefix]. *)
Record Namespace {RelabelConfig : Type} : Type := {
  core : NamespaceConfig RelabelConfig;
  NamespaceLabelName : string;
  NamespaceLabels : option (gmap string string);
  MetricsOverride : option string;
  NamespacePrefix : string;
  SourceFiles : list string;
  Source : SourceData
}.
Global Arguments Namespace : clear implicits.

Definition StabilityWarnings {RC : Type} (c : Namespace RC) : option error := None.

Definition DeprecationWarnings {RC : Type} (c : Namespace RC) : option error :=
  if decide (0 < length (SourceFiles c))%nat
  then Some "you are using the 'source_files' configuration parameter"
  else None.

Definition setFiles {RC : Type} (c : Namespace RC) (sourceFiles files : list string)
  : Namespace RC :=
  {| core := core c; NamespaceLabelName := NamespaceLabelName c;
     NamespaceLabels := NamespaceLabels c; MetricsOverride := MetricsOverride c;
     NamespacePrefix := NamespacePrefix c; SourceFiles := sourceFiles;
     Source := {| Files := files; Syslog := Syslog (Source c) |} |}.

Definition ResolveDeprecations {RC : Type} (c : Namespace RC) : Namespace RC :=
  if decide (0 < length (SourceFiles c))%nat
  then setFiles c (SourceFiles c) (SourceFiles c)
  else c.

(** The calls to the logger of [ResolveGlobs]. *)
Inductive logEntry : Type :=
  | Infof (msg : string)
  | Warnf (msg : string).

(** [strings.Contains(s, "*")] *)
Fixpoint containsStar (s : string) : bool :=
  match s with
  | EmptyString => false
  | String c r => Ascii.eqb c "*" || containsStar r
  end.

(** [%v] of a slice of strings: the elements between brackets,
    separated by spaces. *)
Fixpoint joinSpace (l : list string) : string :=
  match l with
  | [] => ""
  | [x] => x
  | x :: l => x +:+ " " +:+ joinSpace l
  end.

Definition formatStrings (l : list string) : string :=
  "[" +:+ joinSpace l +:+ "]".

Section Globs.
(** [filepath.Glob]: the matching paths, or an error. *)
Variable Glob : string → list string + error.

(** The loop of [ResolveGlobs] over the files left to resolve. *)
Fixpoint resolveFiles (files resolvedFiles : list string) (logged : list logEntry)
  : list string * option error * list logEntry :=
  match files with
  | [] => (resolvedFiles, None, logged)
  | sf :: files =>
      if containsStar sf then
        match Glob sf with
        | inr err => (resolvedFiles, Some err, logged)
        | inl matches =>
            resolveFiles files (resolvedFiles ++ matches)
              (logged ++ [Infof ("Resolved globs " +:+ sf +:+ " to "
                                 +:+ formatStrings matches)])
        end
      else
        resolveFiles files (resolvedFiles ++ [sf])
          (logged ++ [Warnf ("No globs for " +:+ sf)])
  end.

Definition ResolveGlobs {RC : Type} (c : Namespace RC)
  : Namespace RC * option error * list logEntry :=
  if decide (0 < length (Files (Source c)))%nat then
    match resolveFiles (Files (Source c)) [] [] with
    | (_, Some err, logged) => (c, Some err, logged)
    | (resolvedFiles, None, logged) =>
        (setFiles c resolvedFiles resolvedFiles, None, logged)
    end
  else (c, None, []).

(** What a configured file stands for: itself, or the matches of its
    pattern. *)
Definition expansion (sf : string) : list string :=
  if containsStar sf then
    match Glob sf with inl matches => matches | inr _ => [] end
  else [sf].
End Globs.

Section Compiling.
Context {RC : Type}.
(** [RelabelConfig.Compile], declared in a file that is not among the
    sources: the configuration after the call, and the error returned. *)
Variable compileRelabel : RC → RC * option error.

(** [for i := range c.RelabelConfigs], stopping at the first error. *)
Fixpoint compileRelabels (cfgs : list RC) : list RC * option error :=
  match cfgs with
  | [] => ([], None)
  | r :: cfgs =>
      match compileRelabel r with
      | (r, Some err) => (r :: cfgs, Some err)
      | (r, None) =>
          let '(cfgs, err) := compileRelabels cfgs in (r :: cfgs, err)
      end
  end.

Definition setRelabelConfigs (c : NamespaceConfig RC) (cfgs : list RC)
  : NamespaceConfig RC :=
  {| Name := Name c; Labels := Labels c; RelabelConfigs := cfgs;
     Metrics := Metrics c; PrintLog := PrintLog c;
     OrderedLabelNames := OrderedLabelNames c;
     OrderedLabelValues := OrderedLabelValues c |}.

(** [Compile]; [iteration] is the order in which [OrderLabels] ranges
    over the labels. *)
Definition Compile (iteration : list string) (c : Namespace RC)
  : Namespace RC * option error :=
  let '(cfgs, err) := compileRelabels (RelabelConfigs (core c)) in
  let compiled := setRelabelConfigs (core c) cfgs in
  match err with
  | Some err =>
      ({| core := compiled; NamespaceLabelName := NamespaceLabelName c;
          NamespaceLabels := NamespaceLabels c;
          MetricsOverride := MetricsOverride c;
          NamespacePrefix := NamespacePrefix c;
          SourceFiles := SourceFiles c; Source := Source c |}, Some err)
  | None =>
      ({| core := OrderLabels iteration compiled;
          NamespaceLabelName := NamespaceLabelName c;
          NamespaceLabels :=
            if decide (NamespaceLabelName c = "") then NamespaceLabels c
            else Some {[ NamespaceLabelName c := Name (core c) ]};
          MetricsOverride := MetricsOverride c;
          NamespacePrefix :=
            match MetricsOverride c with
            | Some prefix => prefix
            | None => Name (core c)
            end;
          SourceFiles := SourceFiles c; Source := Source c |}, None)
  end.

(** [MustCompile]: [None] stands for the panic. *)
Definition MustCompile (iteration : list string) (c : Namespace RC)
  : option (Namespace RC) :=
  match Compile iteration c with
  | (c, None) => Some c
  | (_, Some _) => None
  end.
End Compiling.

(** ** Reading the effects of a run *)

Global Instance metric_eq_dec : EqDecision metric.
Proof. solve_decision. Defined.

Definition metricOf (e : effect) : option metric :=
  match e with
  | Inc m _ | Add m _ _ | Observe m _ _ | Set_ m _ _ => Some m
  | _ => None
  end.

Definition labelsOf (e : effect) : option (list string) :=
  match e with
  | Inc _ lvs | Add _ lvs _ | Observe _ lvs _ | Set_ _ lvs _ => Some lvs
  | _ => None
  end.

Definition echoOf (e : effect) : option string :=
  match e with Println line => Some line | _ => None end.

(** The metrics that some effects update, in order. *)
Definition touched (effects : list effect) : list metric := omap metricOf effects.

(** The metrics fed by a numeric field. *)
Definition metricsOfField (name : string) : list metric :=
  touched (updatesOf name [] Float64.zero).

(** The metrics that a metrics configuration leaves enabled. *)
Definition enabledMetrics (mc : MetricsConfig) : list metric :=
  (if DisableCountTotal mc then [] else [CountTotal])
  ++ (if 0 <? CurrentUserInterval mc then [CurrentUsers] else [])
  ++ concat (metricsOfField
               <$> filter (λ name, disabled name mc = false) numericFields).

(** The increments of the total-count metric among some effects. *)
Definition countedTotal (effects : list effect) : nat :=
  length (filter (λ m, m = CountTotal) (touched effects)).

(** Whether the conversion of a numeric field fails. *)
Definition conversionFails (ParseFloat : string → option float64)
    (fields : gmap string string) (name : string) : bool :=
  match extractorOf ParseFloat name fields name with
  | (_, false, Some _) => true
  | _ => false
  end.

Section Accounting.
Context {RC : Type}.
Variable ParseString : string → gmap string string + error.
Variable ParseFloat : string → option float64.
Variable nsCfg : NamespaceConfig RC.

Definition parses (line : string) : bool :=
  match ParseString line with inl _ => true | inr _ => false end.

(** The parse errors that a line accounts for: one when the line does
    not parse, else one for each numeric field, left by the filter, whose
    conversion fails. *)
Definition lineErrors (line : string) : nat :=
  match ParseString line with
  | inr _ => 1
  | inl fields =>
      length (filter (λ name, conversionFails ParseFloat
                                (filterFields fields nsCfg) name = true)
                numericFields)
  end.
End Accounting.

Module SampleConfig.
(** A directory listing for the sample patterns. *)
Definition Glob (pattern : string) : list string + error :=
  if decide (pattern = "/var/log/nginx/*.log")
  then inl ["/var/log/nginx/access.log"; "/var/log/nginx/error.log"]
  else if decide (pattern = "/var/log/[*.log") then inr "syntax error in pattern"
  else inl [].

Definition sources (sourceFiles files : list string) : Namespace Relabeling :=
  {| core := Sample.labelled; NamespaceLabelName := "vhost";
     NamespaceLabels := None; MetricsOverride := None; NamespacePrefix := "";
     SourceFiles := sourceFiles;
     Source := {| Files := files; Syslog := None |} |}.

(** A relabeling configuration compiles unless its source is empty. *)
Definition compileRelabel (r : Relabeling) : Relabeling * option error :=
  if decide (SourceValue r = "") then (r, Some "missing source")
  else (r, None).

Definition relabelled (cfgs : list Relabeling) : Namespace Relabeling :=
  {| core := {| Name := "nginx";
                Labels := {[ "zone" := "eu"; "app" := "shop" ]};
                RelabelConfigs := cfgs; Metrics := Sample.metricsAll;
                PrintLog := false; OrderedLabelNames := [];
                OrderedLabelValues := [] |};
     NamespaceLabelName := "vhost"; NamespaceLabels := None;
     MetricsOverride := Some "web"; NamespacePrefix := "";
     SourceFiles := []; Source := {| Files := []; Syslog := None |} |}.
End SampleConfig.

(** * Properties *)

(** ** Strings *)

Section StringFacts.
Lemma string_app_nil_r (s : string) : s +:+ "" = s.
Proof. induction s as [|c s IH]; [done|]. unfold String.app in *. simpl. by rewrite IH. Qed.

Lemma string_app_snoc (s r : string) (c : ascii) :
  (s +:+ String c "") +:+ r = s +:+ String c r.
Proof.
  induction s as [|d s IH]; [done|].
  unfold String.app in *. simpl. by rewrite IH.
Qed.

Lemma rev_app_rev_app (s1 s2 s3 : string) :
  String.rev_app (String.rev_app s1 s2) s3 = String.rev_app s2 (s1 +:+ s3).
Proof.
  revert s2 s3. induction s1 as [|c s1 IH]; intros s2 s3; [done|].
  simpl. by rewrite IH.
Qed.

Lemma string_rev_involutive (s : string) : String.rev (String.rev s) = s.
Proof. unfold String.rev. rewrite rev_app_rev_app. simpl. apply string_app_nil_r. Qed.

Lemma all_bytes_rev_app (p : ascii → bool) (s1 s2 : string) :
  all_bytes p (String.rev_app s1 s2) = all_bytes p s1 && all_bytes p s2.
Proof.
  revert s2. induction s1 as [|c s1 IH]; intros s2; [done|].
  simpl. rewrite IH. simpl. by destruct (p c), (all_bytes p s1).
Qed.

Lemma all_bytes_rev (p : ascii → bool) (s : string) :
  all_bytes p (String.rev s) = all_bytes p s.
Proof. unfold String.rev. rewrite all_bytes_rev_app. simpl. apply andb_true_r. Qed.

(** A byte of a float literal is ASCII and neither a delimiter nor
    white space. *)
Lemma floatByte_plain (c : ascii) :
  floatByte c = true →
  isDelimiter c = false ∧ asciiSpace c = false ∧ (N_of_ascii c < 0x80)%N.
Proof.
  destruct c as [[] [] [] [] [] [] [] []]; vm_compute; intros;
    try discriminate; done.
Qed.

(** No white-space rune starts or ends with an ASCII byte other than
    the six of [asciiSpace]. *)
Lemma trimRunes_plain (back : bool) (c : ascii) (r : string) :
  asciiSpace c = false → (N_of_ascii c < 0x80)%N →
  trimRunes back (String c r) = String c r.
Proof.
  intros Hsp Hlt. simpl. rewrite Hsp.
  assert (Hne : ∀ n, (0x80 ≤ n)%N → byte_is c n = false).
  { intros n Hn. unfold byte_is. apply N.eqb_neq. lia. }
  assert (Hge : N.leb 0x80 (N_of_ascii c) = false) by (apply N.leb_gt; lia).
  destruct r as [|c2 [|c3 r]]; [done| |].
  - unfold space2. rewrite !Hne by lia. simpl.
    rewrite andb_false_r. by destruct back.
  - unfold space2, space3. rewrite !Hne by lia. rewrite Hge. simpl.
    rewrite !andb_false_r. simpl. by destruct back.
Qed.

Lemma trimRunes_float (back : bool) (s : string) :
  all_bytes floatByte s = true → trimRunes back s = s.
Proof.
  destruct s as [|c r]; [done|]. simpl all_bytes.
  intros [Hc _]%andb_true_iff.
  destruct (floatByte_plain c Hc) as (_ & ? & ?). by apply trimRunes_plain.
Qed.

Lemma TrimSpace_float (s : string) :
  all_bytes floatByte s = true → TrimSpace s = s.
Proof.
  intros Hs. unfold TrimSpace.
  rewrite (trimRunes_float false s Hs).
  rewrite trimRunes_float by by rewrite all_bytes_rev.
  apply string_rev_involutive.
Qed.

Lemma fieldsFrom_whole (f : ascii → bool) (cur s : string) :
  all_bytes (λ c, negb (f c)) s = true →
  fieldsFrom f cur s =
    match cur +:+ s with EmptyString => [] | _ => [cur +:+ s] end.
Proof.
  revert cur. induction s as [|c s IH]; intros cur Hs.
  - simpl. rewrite string_app_nil_r. by destruct cur.
  - simpl in Hs. apply andb_true_iff in Hs as [Hc Hs].
    simpl. apply negb_true_iff in Hc. rewrite Hc.
    rewrite IH by done. by rewrite string_app_snoc.
Qed.

Lemma FieldsFunc_float (s : string) :
  s ≠ "" → all_bytes floatByte s = true → FieldsFunc s isDelimiter = [s].
Proof.
  intros Hne Hs. unfold FieldsFunc. rewrite fieldsFrom_whole.
  - by destruct s.
  - clear Hne. induction s as [|c s IH]; [done|].
    simpl in *. apply andb_true_iff in Hs as [Hc Hs].
    destruct (floatByte_plain c Hc) as (-> & _). by rewrite IH.
Qed.
End StringFacts.

(** The library functions on a few inputs. *)

Example FieldsFunc_drops_empty_pieces :
  FieldsFunc ",0.001,,0.002:0.003:" isDelimiter = ["0.001"; "0.002"; "0.003"].
Proof. reflexivity. Qed.

Example FieldsFunc_of_delimiters : FieldsFunc ":,:" isDelimiter = [].
Proof. reflexivity. Qed.

Example TrimSpace_ascii :
  TrimSpace (String "009"%char " -  " +:+ String "010"%char "") = "-".
Proof. reflexivity. Qed.

Example TrimSpace_keeps_inner_space : TrimSpace "  a b " = "a b".
Proof. reflexivity. Qed.

(** A no-break space (U+00A0) in front and a thin space (U+2009) behind. *)
Example TrimSpace_unicode :
  TrimSpace
    (String "194" (String "160" (String "-"
       (String "226" (String "128" (String "137" ""))))))%char
  = "-".
Proof. reflexivity. Qed.

(** A zero-width space (U+200B) is not white space, nor is a truncated
    encoding. *)
Example TrimSpace_not_space :
  TrimSpace (String "226" (String "128" (String "139" " ")))%char
  = (String "226" (String "128" (String "139" "")))%char
  ∧ TrimSpace (String "194" " x")%char = (String "194" " x")%char.
Proof. split; reflexivity. Qed.

Example entries_example : entries "0.001, -, 0.002" = ["0.001"; "0.002"].
Proof. by vm_compute. Qed.

(** 0.006 as a binary64 number: 0x1.89374bc6a7efap-8. *)
Example decimal_0_006 :
  Float64.decimal 6 3 = S754_finite false 0x189374bc6a7efa (-60).
Proof. by vm_compute. Qed.

Example sum_of_three :
  Float64.sum [Float64.decimal 1 3; Float64.decimal 2 3; Float64.decimal 3 3]
  = Float64.decimal 6 3.
Proof. by vm_compute. Qed.

Example sample_ParseFloat :
  Sample.ParseFloat "0.045" = Some (Float64.decimal 45 3)
  ∧ Sample.ParseFloat "512" = Some (Float64.of_int 512)
  ∧ Sample.ParseFloat "-" = None
  ∧ Sample.ParseFloat "1,5" = None.
Proof. by vm_compute. Qed.

(** ** Numeric extraction *)

Lemma add_zero_l (f : float64) : Float64.same f (Float64.add Float64.zero f).
Proof.
  destruct f as [[]| | |]; try (by left).
  right. reflexivity.
Qed.

Lemma decimalDigits_syntax (s : string) (m : Z) (k : option nat) (seen : bool)
    (r : Z * nat) :
  Sample.decimalDigits s m k seen = Some r → all_bytes floatByte s = true.
Proof.
  revert m k seen. induction s as [|c s IH]; intros m k seen; [done|].
  simpl. destruct (Ascii.is_nat c) as [d|] eqn:Hd.
  - intros ->%IH. rewrite andb_true_r.
    destruct c as [[] [] [] [] [] [] [] []]; by try discriminate.
  - destruct (Ascii.eqb_spec c ".") as [->|]; [|done].
    destruct (bool_decide (k = None)); [|done]. by intros ->%IH.
Qed.

Lemma sample_float_syntax : float_syntax Sample.ParseFloat.
Proof.
  intros s f. unfold Sample.ParseFloat.
  destruct (Sample.decimalDigits s 0 None false) as [[m k]|] eqn:Hs; [|done].
  intros _. split; [by intros -> | by eapply decimalDigits_syntax].
Qed.

Section ExtractorFacts.
Variable ParseFloat : string → option float64.
Hypothesis ParseFloat_syntax : float_syntax ParseFloat.

Lemma sumFields_entries (val : string) (sum : float64) (vs : list string) :
  sumFields ParseFloat val sum vs =
    match mapM ParseFloat (filter (λ v, v ≠ "-") (TrimSpace <$> vs)) with
    | Some fs => (foldl Float64.add sum fs, true, None)
    | None => (Float64.zero, false, Some (parseError val))
    end.
Proof.
  revert sum. induction vs as [|v vs IH]; intros sum; [done|].
  rewrite fmap_cons. simpl sumFields.
  destruct (decide (TrimSpace v = "-")) as [Hv|Hv].
  - rewrite filter_cons_False by (by intros ?). apply IH.
  - rewrite filter_cons_True by done. simpl.
    destruct (ParseFloat (TrimSpace v)) as [f|]; [|done].
    simpl. rewrite IH. by destruct (mapM _ _).
Qed.

(** A value that [ParseFloat] accepts as a whole is its own single entry. *)
Lemma entries_float (val : string) (f : float64) :
  ParseFloat val = Some f → val ≠ "-" → entries val = [val].
Proof.
  intros [Hne Hs]%ParseFloat_syntax Hdash. unfold entries.
  rewrite FieldsFunc_float by done. simpl. rewrite TrimSpace_float by done.
  by rewrite filter_cons_True.
Qed.

Lemma floatFromFieldsMulti_unfold (fields : gmap string string) (name val : string) :
  fields !! name = Some val →
  floatFromFieldsMulti ParseFloat fields name =
    if decide (val = "-") then (Float64.zero, false, None)
    else match ParseFloat val with
         | Some f => (f, true, None)
         | None => sumFields ParseFloat val Float64.zero (FieldsFunc val isDelimiter)
         end.
Proof.
  intros Hval. unfold floatFromFieldsMulti, floatFromFields. rewrite Hval.
  destruct (decide (val = "-")); [done|].
  by destruct (ParseFloat val).
Qed.

(** The result of the multi-value extractor in terms of the entries. *)
Lemma floatFromFieldsMulti_entries (fields : gmap string string) (name val : string) :
  fields !! name = Some val → val ≠ "-" →
  match mapM ParseFloat (entries val) with
  | Some fs =>
      ∃ s, floatFromFieldsMulti ParseFloat fields name = (s, true, None)
           ∧ Float64.same s (Float64.sum fs)
  | None =>
      floatFromFieldsMulti ParseFloat fields name
        = (Float64.zero, false, Some (parseError val))
  end.
Proof.
  intros Hval Hdash. rewrite (floatFromFieldsMulti_unfold _ _ _ Hval).
  rewrite decide_False by done.
  destruct (ParseFloat val) as [f|] eqn:Hf.
  - rewrite (entries_float _ _ Hf Hdash). simpl. rewrite Hf. simpl.
    exists f. split; [done|]. apply add_zero_l.
  - rewrite sumFields_entries. fold (entries val).
    destruct (mapM ParseFloat (entries val)) as [fs|]; [|done].
    exists (Float64.sum fs). split; [done|]. by left.
Qed.

Lemma ParseFloat_rejects (s : string) :
  all_bytes floatByte s = false → ParseFloat s = None.
Proof.
  intros Hs. destruct (ParseFloat s) as [f|] eqn:Hf; [|done].
  apply ParseFloat_syntax in Hf as [_ Hf]. congruence.
Qed.
End ExtractorFacts.

Lemma observe_ok (fields : gmap string string) (name : string) (extract : extractor)
    (update : float64 → list effect) (v : float64) (err : option error) :
  extract fields name = (v, true, err) →
  observe fields name extract update = update v.
Proof. intros H. unfold observe, observeMetrics. by rewrite H. Qed.

Lemma observe_error (fields : gmap string string) (name : string) (extract : extractor)
    (update : float64 → list effect) (v : float64) (err : error) :
  extract fields name = (v, false, Some err) →
  observe fields name extract update =
    [LogErrorf ("error while parsing $" +:+ name +:+ ": " +:+ err);
     ParseErrorsTotal_Inc].
Proof. intros H. unfold observe, observeMetrics. by rewrite H. Qed.

Lemma observe_skip (fields : gmap string string) (name : string) (extract : extractor)
    (update : float64 → list effect) (v : float64) :
  extract fields name = (v, false, None) →
  observe fields name extract update = [].
Proof. intros H. unfold observe, observeMetrics. by rewrite H. Qed.

Lemma floatFromFieldsMulti_literal (ParseFloat : string → option float64)
    (name val : string) :
  float_syntax ParseFloat → val ≠ "-" → all_bytes floatByte val = false →
  floatFromFieldsMulti ParseFloat {[ name := val ]} name =
    match mapM ParseFloat (entries val) with
    | Some fs => (Float64.sum fs, true, None)
    | None => (Float64.zero, false, Some (parseError val))
    end.
Proof.
  intros Hsyn Hdash Hval.
  rewrite (floatFromFieldsMulti_unfold ParseFloat _ name val)
    by apply lookup_singleton_eq.
  rewrite decide_False by done.
  rewrite (ParseFloat_rejects ParseFloat Hsyn val Hval).
  apply sumFields_entries.
Qed.

(** C1.  On a multi-value field ([upstream_response_time] and
    [upstream_connect_time] are extracted with [floatFromFieldsMulti]),
    the observation is the sum of the entries of the value: its pieces
    between commas and colons, trimmed, without those that read "-".  If
    one of the entries is not a float, the extractor returns an error,
    nothing is observed for the field, and the parse-error counter is
    incremented.  The value "-" alone is the sentinel for "absent": no
    observation and no error.  "0.001,0.002:0.003" gives 0.006,
    "0.001, -, 0.002" gives 0.003, and "0.001,x,0.002" gives an error and
    no observation. *)
Theorem multi_value_sum (ParseFloat : string → option float64) :
  float_syntax ParseFloat →
  (∀ name, name ∈ ["upstream_response_time"; "upstream_connect_time"] →
     extractorOf ParseFloat name = floatFromFieldsMulti ParseFloat)
  ∧ (∀ (fields : gmap string string) (name val : string)
       (update : float64 → list effect),
       fields !! name = Some val →
       if decide (val = "-") then
         floatFromFieldsMulti ParseFloat fields name = (Float64.zero, false, None)
         ∧ observe fields name (floatFromFieldsMulti ParseFloat) update = []
       else
         match mapM ParseFloat (entries val) with
         | Some fs =>
             ∃ s, floatFromFieldsMulti ParseFloat fields name = (s, true, None)
                  ∧ Float64.same s (Float64.sum fs)
                  ∧ observe fields name (floatFromFieldsMulti ParseFloat) update
                    = update s
         | None =>
             floatFromFieldsMulti ParseFloat fields name
               = (Float64.zero, false, Some (parseError val))
             ∧ observe fields name (floatFromFieldsMulti ParseFloat) update
               = [LogErrorf ("error while parsing $" +:+ name +:+ ": "
                             +:+ parseError val);
                  ParseErrorsTotal_Inc]
         end)
  ∧ (∀ name : string,
       ParseFloat "0.001" = Some (Float64.decimal 1 3) →
       ParseFloat "0.002" = Some (Float64.decimal 2 3) →
       ParseFloat "0.003" = Some (Float64.decimal 3 3) →
       ParseFloat "x" = None →
       floatFromFieldsMulti ParseFloat {[ name := "0.001,0.002:0.003" ]} name
         = (Float64.decimal 6 3, true, None)
       ∧ floatFromFieldsMulti ParseFloat {[ name := "0.001, -, 0.002" ]} name
         = (Float64.decimal 3 3, true, None)
       ∧ floatFromFieldsMulti ParseFloat {[ name := "0.001,x,0.002" ]} name
         = (Float64.zero, false, Some (parseError "0.001,x,0.002"))
       ∧ ∀ update,
           observe {[ name := "0.001,x,0.002" ]} name
             (floatFromFieldsMulti ParseFloat) update
           = [LogErrorf ("error while parsing $" +:+ name +:+ ": "
                         +:+ parseError "0.001,x,0.002");
              ParseErrorsTotal_Inc]).
Proof.
  intros Hsyn. split; [|split].
  - intros name [->|[->|[]%elem_of_nil]%elem_of_cons]%elem_of_cons; reflexivity.
  - intros fields name val update Hval.
    destruct (decide (val = "-")) as [->|Hdash].
    + assert (floatFromFieldsMulti ParseFloat fields name
              = (Float64.zero, false, None)) as Hr.
      { by rewrite (floatFromFieldsMulti_unfold _ _ _ _ Hval). }
      split; [done|]. by eapply observe_skip.
    + pose proof (floatFromFieldsMulti_entries ParseFloat Hsyn fields name val
                    Hval Hdash) as Hr.
      destruct (mapM ParseFloat (entries val)) as [fs|].
      * destruct Hr as (s & Hr & Hs). exists s. split_and!; [done..|].
        by eapply observe_ok.
      * split; [done|]. by eapply observe_error.
  - intros name H1 H2 H3 Hx.
    assert (floatFromFieldsMulti ParseFloat {[ name := "0.001,x,0.002" ]} name
            = (Float64.zero, false, Some (parseError "0.001,x,0.002"))) as Hbad.
    { rewrite floatFromFieldsMulti_literal by done.
      replace (entries "0.001,x,0.002") with ["0.001"; "x"; "0.002"]
        by (by vm_compute).
      simpl. by rewrite H1, Hx. }
    split_and!.
    + rewrite floatFromFieldsMulti_literal by done.
      replace (entries "0.001,0.002:0.003") with ["0.001"; "0.002"; "0.003"]
        by (by vm_compute).
      simpl. rewrite H1, H2, H3. by vm_compute.
    + rewrite floatFromFieldsMulti_literal by done.
      replace (entries "0.001, -, 0.002") with ["0.001"; "0.002"]
        by (by vm_compute).
      simpl. rewrite H1, H2. by vm_compute.
    + done.
    + intros update. by eapply observe_error.
Qed.

Lemma multi_value_sum_witness :
  floatFromFieldsMulti Sample.ParseFloat
    {[ "upstream_response_time" := "0.001,0.002:0.003" ]} "upstream_response_time"
  = (Float64.decimal 6 3, true, None).
Proof.
  apply (multi_value_sum Sample.ParseFloat sample_float_syntax);
    vm_compute; reflexivity.
Defined.

(** C10, as stated, fails on the value "-": each of its entries (there is
    one) reads "-", yet the multi-value extractor reports no observation,
    exactly as the single-value extractor does. *)
Lemma multi_value_dash_alone :
  let fields : gmap string string := {[ "upstream_response_time" := "-" ]} in
  Forall (λ v, TrimSpace v = "-") (FieldsFunc "-" isDelimiter)
  ∧ floatFromFieldsMulti Sample.ParseFloat fields "upstream_response_time"
    = (Float64.zero, false, None)
  ∧ floatFromFieldsMulti Sample.ParseFloat fields "upstream_response_time"
    ≠ (Float64.zero, true, None)
  ∧ fieldBlock Sample.ParseFloat "upstream_response_time" fields [] = [].
Proof. vm_compute. split_and!; [by repeat constructor|done|done|done]. Qed.

(** C10, amended.  When a multi-value field is present, its value is not
    "-" itself, and every piece of the value between commas and colons
    reads "-" once trimmed (in particular when the value is empty), the
    multi-value extractor returns the observation 0 without error, and
    the pipeline observes 0 into the summary and the histogram of the
    field.  On the value "-" itself both extractors report no
    observation and no error. *)
Theorem multi_value_only_dashes (ParseFloat : string → option float64)
    (fields : gmap string string) (name val : string) (labels : list string) :
  float_syntax ParseFloat →
  fields !! name = Some val →
  val ≠ "-" →
  Forall (λ v, TrimSpace v = "-") (FieldsFunc val isDelimiter) →
  floatFromFieldsMulti ParseFloat fields name = (Float64.zero, true, None)
  ∧ (name = "upstream_response_time" →
       fieldBlock ParseFloat name fields labels
       = [Observe UpstreamSeconds labels Float64.zero;
          Observe UpstreamSecondsHist labels Float64.zero])
  ∧ (name = "upstream_connect_time" →
       fieldBlock ParseFloat name fields labels
       = [Observe UpstreamConnectSeconds labels Float64.zero;
          Observe UpstreamConnectSecondsHist labels Float64.zero])
  ∧ floatFromFieldsMulti ParseFloat (<[name := "-"]> fields) name
    = (Float64.zero, false, None)
  ∧ floatFromFields ParseFloat (<[name := "-"]> fields) name
    = (Float64.zero, false, None).
Proof.
  intros Hsyn Hval Hdash Hall.
  assert (entries val = []) as Hent.
  { unfold entries. induction Hall as [|v vs Hv _ IH]; [done|].
    rewrite fmap_cons, filter_cons_False; [done|]. by intros ?. }
  assert (floatFromFieldsMulti ParseFloat fields name
          = (Float64.zero, true, None)) as Hr.
  { rewrite (floatFromFieldsMulti_unfold _ _ _ _ Hval).
    rewrite decide_False by done.
    destruct (ParseFloat val) as [f|] eqn:Hf.
    - pose proof (entries_float ParseFloat Hsyn val f Hf Hdash). congruence.
    - rewrite sumFields_entries. fold (entries val). by rewrite Hent. }
  split_and!.
  - done.
  - intros ->. unfold fieldBlock.
    by rewrite (observe_ok _ _ _ _ _ _ Hr).
  - intros ->. unfold fieldBlock.
    by rewrite (observe_ok _ _ _ _ _ _ Hr).
  - rewrite (floatFromFieldsMulti_unfold _ _ _ "-") by apply lookup_insert_eq.
    done.
  - unfold floatFromFields. by rewrite lookup_insert_eq.
Qed.

Lemma multi_value_only_dashes_witness :
  floatFromFieldsMulti Sample.ParseFloat
    {[ "upstream_connect_time" := "-, - :-" ]} "upstream_connect_time"
  = (Float64.zero, true, None).
Proof.
  apply (multi_value_only_dashes Sample.ParseFloat
           {[ "upstream_connect_time" := "-, - :-" ]}
           "upstream_connect_time" "-, - :-" [] sample_float_syntax).
  - reflexivity.
  - discriminate.
  - vm_compute. repeat constructor.
Defined.

(** ** Field filter *)

Section FilterFacts.
Context {RC : Type}.
Implicit Types (fields : gmap string string) (nsCfg : NamespaceConfig RC).

Lemma filterFields_lookup fields nsCfg (field : string) :
  filterFields fields nsCfg !! field =
    if disabled field (Metrics nsCfg) then None else fields !! field.
Proof.
  unfold filterFields.
  apply (map_fold_weak_ind (λ result fields,
    result !! field =
      if disabled field (Metrics nsCfg) then None else fields !! field)).
  - rewrite lookup_empty. by destruct (disabled _ _).
  - intros k v m result Hk IH.
    destruct (decide (k = field)) as [->|Hne].
    + destruct (disabled field (Metrics nsCfg)); [done|].
      by rewrite !lookup_insert_eq.
    + rewrite (lookup_insert_ne m) by done.
      destruct (disabled k (Metrics nsCfg)); [done|].
      by rewrite lookup_insert_ne.
Qed.

Lemma disabled_iff (field : string) (mc : MetricsConfig) :
  disabled field mc = true ↔
    (field = "body_bytes_sent" ∧ DisableResponseBytesTotal mc = true)
    ∨ (field = "request_length" ∧ DisableRequestBytesTotal mc = true)
    ∨ (field = "upstream_response_time" ∧ DisableUpstreamSeconds mc = true)
    ∨ (field = "upstream_connect_time" ∧ DisableUpstreamConnectSeconds mc = true)
    ∨ (field = "request_time" ∧ DisableResponseSeconds mc = true).
Proof.
  unfold disabled.
  repeat (destruct (decide (field = _)) as [->|?]; [intuition congruence|]).
  intuition congruence.
Qed.

(** C3.  The filtered mapping holds a field, with the value it had, if
    and only if the parsed mapping holds it and it is not one of the five
    well-known fields with its disable flag set.  So values are never
    altered, and what a disabled field holds, or whether it is there at
    all, makes no difference to the filtered mapping, which is all that
    the relabeling rules get to read. *)
Theorem filterFields_spec fields nsCfg :
  (∀ field value,
     filterFields fields nsCfg !! field = Some value ↔
       fields !! field = Some value ∧ disabled field (Metrics nsCfg) = false)
  ∧ (∀ field,
       disabled field (Metrics nsCfg) = true ↔
         (field = "body_bytes_sent"
            ∧ DisableResponseBytesTotal (Metrics nsCfg) = true)
         ∨ (field = "request_length"
              ∧ DisableRequestBytesTotal (Metrics nsCfg) = true)
         ∨ (field = "upstream_response_time"
              ∧ DisableUpstreamSeconds (Metrics nsCfg) = true)
         ∨ (field = "upstream_connect_time"
              ∧ DisableUpstreamConnectSeconds (Metrics nsCfg) = true)
         ∨ (field = "request_time"
              ∧ DisableResponseSeconds (Metrics nsCfg) = true))
  ∧ (∀ field value,
       disabled field (Metrics nsCfg) = true →
       filterFields fields nsCfg !! field = None
       ∧ filterFields (<[field := value]> fields) nsCfg
         = filterFields (delete field fields) nsCfg
       ∧ ∀ (r : Relabeling), SourceValue r = field →
           written r (filterFields (<[field := value]> fields) nsCfg) = None).
Proof.
  split_and!.
  - intros field value. rewrite filterFields_lookup.
    destruct (disabled field (Metrics nsCfg)); intuition congruence.
  - intros field. apply disabled_iff.
  - intros field value Hd. split_and!.
    + by rewrite filterFields_lookup, Hd.
    + apply map_eq. intros k. rewrite !filterFields_lookup.
      destruct (decide (k = field)) as [->|Hne]; [by rewrite Hd|].
      destruct (disabled k (Metrics nsCfg)); [done|].
      by rewrite lookup_insert_ne, lookup_delete_ne.
    + intros r <-. unfold written. by rewrite filterFields_lookup, Hd.
Qed.
End FilterFacts.

Lemma filterFields_spec_witness :
  filterFields {[ "request_time" := "0.045"; "status" := "200" ]}
    (Sample.namespace 0 Sample.metricsNoDurations) !! "request_time" = None.
Proof.
  destruct (filterFields_spec {[ "request_time" := "0.045"; "status" := "200" ]}
              (Sample.namespace 0 Sample.metricsNoDurations)) as (_ & _ & H).
  apply (H "request_time" "0.045"). reflexivity.
Defined.

(** ** Label order *)

Section OrderFacts.
Context {RC : Type}.
Implicit Types (c : NamespaceConfig RC) (keys values : list string).

Lemma collect_keys (acc iteration : list string) :
  foldl (λ keys k, keys ++ [k]) acc iteration = acc ++ iteration.
Proof.
  revert acc. induction iteration as [|k ks IH]; intros acc; simpl.
  - by rewrite app_nil_r.
  - rewrite IH. by rewrite <- app_assoc.
Qed.

Lemma sort_Strings_Permutation keys : sort_Strings keys ≡ₚ keys.
Proof. apply merge_sort_Permutation. Qed.

Lemma sort_Strings_Sorted keys : Sorted String.le (sort_Strings keys).
Proof. apply (Sorted_merge_sort String.le). Qed.

(** There is one sorted arrangement of a list of strings. *)
Lemma sort_Strings_unique keys (sorted : list string) :
  Sorted String.le sorted → sorted ≡ₚ keys → sorted = sort_Strings keys.
Proof.
  intros Hs Hp. apply (Sorted_unique String.le); [done|apply sort_Strings_Sorted|].
  by rewrite sort_Strings_Permutation.
Qed.

Lemma sort_Strings_order_independent keys keys' :
  keys ≡ₚ keys' → sort_Strings keys = sort_Strings keys'.
Proof.
  intros Hp. apply sort_Strings_unique; [apply sort_Strings_Sorted|].
  by rewrite sort_Strings_Permutation.
Qed.

Lemma length_fillValues (labels : gmap string string) (i : nat) keys values :
  length (fillValues labels i keys values) = length values.
Proof.
  revert i values. induction keys as [|k keys IH]; intros i values; [done|].
  simpl. by rewrite IH, length_insert.
Qed.

Lemma fillValues_below (labels : gmap string string) (i j : nat) keys values :
  (j < i)%nat → fillValues labels i keys values !! j = values !! j.
Proof.
  revert i values. induction keys as [|k keys IH]; intros i values Hj; [done|].
  simpl. rewrite IH by lia. apply list_lookup_insert_ne. lia.
Qed.

Lemma fillValues_lookup (labels : gmap string string) (i j : nat) keys values k :
  keys !! j = Some k → (i + j < length values)%nat →
  fillValues labels i keys values !! (i + j)%nat
    = Some (default "" (labels !! k)).
Proof.
  revert i j values.
  induction keys as [|k' keys IH]; intros i j values Hk Hlen; [done|].
  destruct j as [|j]; simpl in *.
  - injection Hk as ->. rewrite fillValues_below by lia.
    rewrite Nat.add_0_r. apply list_lookup_insert_eq. lia.
  - replace (i + S j)%nat with (S i + j)%nat by lia.
    apply IH; [done|]. rewrite length_insert. lia.
Qed.

Lemma OrderedLabelNames_OrderLabels (iteration : list string) c :
  OrderedLabelNames (OrderLabels iteration c) = sort_Strings iteration.
Proof. unfold OrderLabels. simpl. by rewrite collect_keys. Qed.

Lemma OrderedLabelValues_OrderLabels (iteration : list string) c :
  OrderedLabelValues (OrderLabels iteration c) =
    fillValues (Labels c) 0 (sort_Strings iteration)
      (replicate (size (Labels c)) "").
Proof. unfold OrderLabels. simpl. by rewrite collect_keys. Qed.

Lemma ranges_length (iteration : list string) (m : gmap string string) :
  ranges iteration m → length iteration = size m.
Proof.
  unfold ranges. intros ->. rewrite <- (size_dom (D := gset string)). done.
Qed.

(** C7.  For a static label mapping enumerated in any order,
    [OrderLabels] sets [OrderedLabelNames] to the keys of the mapping,
    each once, in increasing lexicographic order, and sets
    [OrderedLabelValues] to the values of these keys, position by
    position.  Two enumeration orders give the same configuration, and
    so does ordering an already ordered configuration again. *)
Theorem OrderLabels_sorted_and_deterministic c (iteration iteration' : list string) :
  ranges iteration (Labels c) →
  ranges iteration' (Labels c) →
  (∀ k, k ∈ OrderedLabelNames (OrderLabels iteration c)
        ↔ is_Some (Labels c !! k))
  ∧ NoDup (OrderedLabelNames (OrderLabels iteration c))
  ∧ StronglySorted String.le (OrderedLabelNames (OrderLabels iteration c))
  ∧ length (OrderedLabelValues (OrderLabels iteration c))
    = length (OrderedLabelNames (OrderLabels iteration c))
  ∧ (∀ i k, OrderedLabelNames (OrderLabels iteration c) !! i = Some k →
            OrderedLabelValues (OrderLabels iteration c) !! i
            = Labels c !! k)
  ∧ OrderLabels iteration' c = OrderLabels iteration c
  ∧ OrderLabels iteration' (OrderLabels iteration c) = OrderLabels iteration c.
Proof.
  intros Hit Hit'.
  assert (Hperm : sort_Strings iteration ≡ₚ elements (dom (Labels c))).
  { by rewrite sort_Strings_Permutation. }
  assert (Hin : ∀ k, k ∈ sort_Strings iteration ↔ is_Some (Labels c !! k)).
  { intros k. rewrite Hperm, elem_of_elements. apply elem_of_dom. }
  assert (Hlen : length (sort_Strings iteration) = size (Labels c)).
  { rewrite Hperm. apply ranges_length. by unfold ranges. }
  assert (Hsame : sort_Strings iteration' = sort_Strings iteration).
  { apply sort_Strings_order_independent. unfold ranges in *. by rewrite Hit, Hit'. }
  rewrite OrderedLabelNames_OrderLabels, OrderedLabelValues_OrderLabels.
  split_and!.
  - done.
  - rewrite Hperm. apply NoDup_elements.
  - apply (StronglySorted_merge_sort String.le); apply _.
  - by rewrite length_fillValues, length_replicate.
  - intros i k Hk.
    assert (is_Some (Labels c !! k)) as [v Hv].
    { apply Hin. by eapply list_elem_of_lookup_2. }
    rewrite (fillValues_lookup (Labels c) 0 i _ _ k Hk).
    + by rewrite Hv.
    + rewrite length_replicate, <- Hlen. by eapply lookup_lt_Some.
  - unfold OrderLabels. simpl. rewrite !collect_keys. simpl. by rewrite Hsame.
  - unfold OrderLabels. simpl. rewrite !collect_keys. simpl. by rewrite Hsame.
Qed.
End OrderFacts.

Lemma OrderLabels_sorted_and_deterministic_witness :
  OrderedLabelNames (OrderLabels ["zone"; "app"; "env"] Sample.labelled)
    = ["app"; "env"; "zone"]
  ∧ OrderedLabelValues (OrderLabels ["zone"; "app"; "env"] Sample.labelled)
    = ["shop"; "prod"; "eu"]
  ∧ OrderLabels ["env"; "zone"; "app"] Sample.labelled
    = OrderLabels ["zone"; "app"; "env"] Sample.labelled.
Proof.
  split_and!; [reflexivity..|].
  apply (OrderLabels_sorted_and_deterministic Sample.labelled
           ["zone"; "app"; "env"] ["env"; "zone"; "app"]);
    unfold ranges; refine (bool_decide_unpack _ _); vm_compute; exact I.
Defined.

(** ** The source pipeline *)

Section PipelineFacts.
Context {RelabelConfig : Type}.
Variable NewRelabelings : list RelabelConfig → list Relabeling.
Variable DefaultRelabelings : list Relabeling.
Variable UniqueRelabelings : list Relabeling → list Relabeling.
Variable StripExcluded : list Relabeling → list Relabeling.
Variable StripOnlyCounterValues : list string → list Relabeling → list string.
Variable ParseString : string → gmap string string + error.
Variable ParseFloat : string → option float64.
Variable nsCfg : NamespaceConfig RelabelConfig.
Variable hasCounterOnlyLabels : bool.

Local Abbreviation rules :=
  (relabelings NewRelabelings DefaultRelabelings UniqueRelabelings
     StripExcluded nsCfg).
Local Abbreviation total :=
  (totalLabelCount NewRelabelings DefaultRelabelings UniqueRelabelings
     StripExcluded nsCfg).
Local Abbreviation offset := (relabelLabelOffset nsCfg).
Local Abbreviation start :=
  (initial NewRelabelings DefaultRelabelings UniqueRelabelings
     StripExcluded nsCfg).
Local Abbreviation step :=
  (processLine NewRelabelings DefaultRelabelings UniqueRelabelings
     StripExcluded StripOnlyCounterValues ParseString ParseFloat nsCfg
     hasCounterOnlyLabels).
Local Abbreviation run :=
  (loop NewRelabelings DefaultRelabelings UniqueRelabelings
     StripExcluded StripOnlyCounterValues ParseString ParseFloat nsCfg
     hasCounterOnlyLabels).
Local Abbreviation source :=
  (processSource NewRelabelings DefaultRelabelings UniqueRelabelings
     StripExcluded StripOnlyCounterValues ParseString ParseFloat nsCfg
     hasCounterOnlyLabels).

Implicit Types (st : loopState) (fields : gmap string string)
  (lv : list string) (rs : list Relabeling) (lines : list (string * Z)).

Local Ltac rule_cases :=
  repeat match goal with
         | |- context [match ?x with _ => _ end] => destruct x eqn:?
         end.

Lemma length_relabel rs (i : nat) fields lv :
  length (relabel nsCfg rs i fields lv) = length lv.
Proof.
  revert i lv. induction rs as [|r rs IH]; intros i lv; [done|].
  simpl. rewrite IH. rule_cases; by rewrite ?length_insert.
Qed.

Lemma relabel_below rs (i j : nat) fields lv :
  (j < i + offset)%nat → relabel nsCfg rs i fields lv !! j = lv !! j.
Proof.
  revert i lv. induction rs as [|r rs IH]; intros i lv Hj; [done|].
  simpl. rewrite IH by lia.
  rule_cases; try done. apply list_lookup_insert_ne. lia.
Qed.

Lemma take_relabel rs (i : nat) fields lv :
  take offset (relabel nsCfg rs i fields lv) = take offset lv.
Proof.
  revert i lv. induction rs as [|r rs IH]; intros i lv; [done|].
  simpl. rewrite IH. rule_cases; try done. apply take_insert_ge. lia.
Qed.

(** The slot of the rule at position [k], after the rules from position
    [i] on have run. *)
Lemma relabel_slot rs (i k : nat) fields lv (r : Relabeling) :
  rs !! k = Some r → (i + k + offset < length lv)%nat →
  relabel nsCfg rs i fields lv !! (i + k + offset)%nat =
    match written r fields with
    | Some mapped => Some mapped
    | None => lv !! (i + k + offset)%nat
    end.
Proof.
  revert i k lv. induction rs as [|r' rs IH]; intros i k lv Hk Hlen; [done|].
  destruct k as [|k]; simpl in Hk.
  - injection Hk as ->. simpl. rewrite relabel_below by lia.
    unfold written. replace (i + 0 + offset)%nat with (i + offset)%nat in * by lia.
    destruct (fields !! SourceValue r) as [str|]; simpl; [|done].
    destruct (Map r str) as [mapped|]; [|done].
    by apply list_lookup_insert_eq.
  - simpl. replace (i + S k + offset)%nat with (S i + k + offset)%nat in * by lia.
    rewrite IH; [|done|rule_cases; by rewrite ?length_insert].
    destruct (written r fields); [done|].
    rule_cases; try done. apply list_lookup_insert_ne. lia.
Qed.

(** Every write of the relabeling loop lands inside the label vector. *)
Lemma relabel_writes_in_range (k : nat) (r : Relabeling) lv :
  rules !! k = Some r → length lv = total → (k + offset < length lv)%nat.
Proof.
  intros Hk%lookup_lt_Some ->. unfold totalLabelCount, relabelLabelOffset. lia.
Qed.

Lemma processLine_failed st (line : string) (now : Z) (err : error) :
  ParseString line = inr err →
  step st line now =
    (st,
     (if PrintLog nsCfg then [Println line] else []) ++
     [LogErrorf ("error while parsing line '" +:+ line +:+ "': " +:+ err);
      ParseErrorsTotal_Inc]).
Proof. intros H. unfold processLine. by rewrite H. Qed.

Lemma processLine_labelValues st (line : string) (now : Z) :
  labelValues (step st line now).1 =
    match ParseString line with
    | inl fields => relabel nsCfg rules 0 (filterFields fields nsCfg) (labelValues st)
    | inr _ => labelValues st
    end.
Proof.
  unfold processLine. destruct (ParseString line) as [fields|err]; [|done].
  by destruct (observeUsers _ _ _ _ _) as [[? ?] ?].
Qed.

Lemma processLine_effects st (line : string) (now : Z) fields :
  ParseString line = inl fields →
  (step st line now).2 =
    let fields := filterFields fields nsCfg in
    let labelValues := relabel nsCfg rules 0 fields (labelValues st) in
    let notCounterValues :=
      if hasCounterOnlyLabels
      then StripOnlyCounterValues labelValues rules else labelValues in
    (if PrintLog nsCfg then [Println line] else [])
    ++ (if DisableCountTotal (Metrics nsCfg) then []
        else [Inc CountTotal labelValues])
    ++ (observeUsers nsCfg fields notCounterValues st now).2
    ++ observeFields ParseFloat fields notCounterValues.
Proof.
  intros H. unfold processLine. rewrite H. simpl.
  by destruct (observeUsers _ _ _ _ _) as [[? ?] ?].
Qed.

Lemma loop_cons st (line : string) (now : Z) lines :
  run st ((line, now) :: lines) =
    ((run (step st line now).1 lines).1,
     (step st line now).2 ++ (run (step st line now).1 lines).2).
Proof.
  simpl. destruct (step st line now) as [st1 e1]. simpl.
  by destruct (run st1 lines).
Qed.

Lemma loop_app st lines lines' :
  run st (lines ++ lines') =
    ((run (run st lines).1 lines').1,
     (run st lines).2 ++ (run (run st lines).1 lines').2).
Proof.
  revert st. induction lines as [|[line now] lines IH]; intros st.
  - simpl. by destruct (run st lines').
  - rewrite <- app_comm_cons, !loop_cons, IH. simpl. by rewrite app_assoc.
Qed.

Lemma length_copy {A : Type} (dst src : list A) :
  length (copy dst src) = length dst.
Proof. unfold copy. rewrite length_app, length_take, length_drop. lia. Qed.

Lemma take_copy {A : Type} (dst src : list A) :
  (length src ≤ length dst)%nat → take (length src) (copy dst src) = src.
Proof.
  intros Hle. unfold copy. rewrite (take_ge src) by done.
  by rewrite take_app_length.
Qed.

Lemma lookup_copy_above {A : Type} (dst src : list A) (j : nat) :
  (length src ≤ length dst)%nat → (length src ≤ j)%nat →
  copy dst src !! j = dst !! j.
Proof.
  intros Hle Hj. unfold copy. rewrite (take_ge src) by done.
  rewrite lookup_app_r by done. rewrite lookup_drop. f_equal. lia.
Qed.

Lemma length_initial : length (labelValues start) = total.
Proof. simpl. by rewrite length_copy, length_replicate. Qed.

Lemma length_processLine st (line : string) (now : Z) :
  length (labelValues (step st line now).1) = length (labelValues st).
Proof.
  rewrite processLine_labelValues.
  destruct (ParseString line); [apply length_relabel|done].
Qed.

Lemma length_loop st lines :
  length (labelValues (run st lines).1) = length (labelValues st).
Proof.
  revert st. induction lines as [|[line now] lines IH]; intros st; [done|].
  rewrite loop_cons. simpl. by rewrite IH, length_processLine.
Qed.

Lemma take_processLine st (line : string) (now : Z) :
  take offset (labelValues (step st line now).1) = take offset (labelValues st).
Proof.
  rewrite processLine_labelValues.
  destruct (ParseString line); [apply take_relabel|done].
Qed.

Lemma take_loop st lines :
  take offset (labelValues (run st lines).1) = take offset (labelValues st).
Proof.
  revert st. induction lines as [|[line now] lines IH]; intros st; [done|].
  rewrite loop_cons. simpl. by rewrite IH, take_processLine.
Qed.

(** The slot of a rule after one more line. *)
Lemma processLine_slot st (line : string) (now : Z) (i : nat) (r : Relabeling) :
  rules !! i = Some r → length (labelValues st) = total →
  labelValues (step st line now).1 !! (offset + i)%nat =
    match writes ParseString nsCfg r line with
    | Some mapped => Some mapped
    | None => labelValues st !! (offset + i)%nat
    end.
Proof.
  intros Hi Hlen. rewrite processLine_labelValues. unfold writes.
  destruct (ParseString line) as [fields|]; [|done].
  replace (offset + i)%nat with (0 + i + offset)%nat by lia.
  apply relabel_slot; [done|]. simpl. by eapply relabel_writes_in_range.
Qed.

Lemma loop_slot st lines (i : nat) (r : Relabeling) (current : string) :
  rules !! i = Some r → length (labelValues st) = total →
  labelValues st !! (offset + i)%nat = Some current →
  labelValues (run st lines).1 !! (offset + i)%nat
    = Some (carried ParseString nsCfg r lines current).
Proof.
  intros Hi. revert st current.
  induction lines as [|[line now] lines IH]; intros st current Hlen Hcur; [done|].
  rewrite loop_cons. simpl. apply IH.
  - by rewrite length_processLine.
  - rewrite (processLine_slot _ _ _ _ r) by done.
    by destruct (writes ParseString nsCfg r line).
Qed.

Lemma initial_slot (i : nat) (r : Relabeling) :
  rules !! i = Some r → labelValues start !! (offset + i)%nat = Some "".
Proof.
  intros Hi%lookup_lt_Some. simpl.
  rewrite lookup_copy_above.
  - apply lookup_replicate_2. unfold totalLabelCount, relabelLabelOffset. lia.
  - rewrite length_replicate. unfold totalLabelCount, staticLabelValues. lia.
  - unfold relabelLabelOffset, staticLabelValues. lia.
Qed.
(** C2.  The slot of relabeling rule [i] sits at index
    [staticLabelCount + i].  A line leaves it as it was when the line
    does not parse, when the filtered mapping lacks the source field of
    the rule, or when the transform of the rule fails; otherwise the
    slot takes the transformed value.  So before any line the slot holds
    the value most recently written by an earlier line, or the empty
    string when none wrote it. *)
Theorem relabel_slot_carry_forward (pre : list (string * Z)) (line : string)
    (now : Z) (i : nat) (r : Relabeling) :
  rules !! i = Some r →
  let st := (run start pre).1 in
  let st' := (step st line now).1 in
  let slot := (offset + i)%nat in
  (writes ParseString nsCfg r line = None ↔
     (∃ err, ParseString line = inr err)
     ∨ ∃ fields, ParseString line = inl fields
         ∧ (filterFields fields nsCfg !! SourceValue r = None
            ∨ ∃ str, filterFields fields nsCfg !! SourceValue r = Some str
                     ∧ Map r str = None))
  ∧ (writes ParseString nsCfg r line = None →
       labelValues st' !! slot = labelValues st !! slot)
  ∧ (∀ mapped, writes ParseString nsCfg r line = Some mapped →
       labelValues st' !! slot = Some mapped)
  ∧ labelValues st !! slot = Some (carried ParseString nsCfg r pre "")
  ∧ carried ParseString nsCfg r [] "" = ""
  ∧ carried ParseString nsCfg r (pre ++ [(line, now)]) "" =
      default (carried ParseString nsCfg r pre "")
        (writes ParseString nsCfg r line)
  ∧ st' = (run start (pre ++ [(line, now)])).1.
Proof.
  intros Hi st st' slot.
  assert (length (labelValues st) = total) as Hlen.
  { unfold st. rewrite length_loop. apply length_initial. }
  pose proof (processLine_slot st line now i r Hi Hlen) as Hslot.
  fold st' slot in Hslot.
  split_and!.
  - unfold writes, written.
    destruct (ParseString line) as [fields|err].
    + destruct (filterFields fields nsCfg !! SourceValue r) as [str|] eqn:Hf; simpl.
      * split.
        -- intros Hm. right. exists fields. split; [done|]. right. by exists str.
        -- intros [[err ?]|(fields' & [= <-] & [?|(str' & ? & ?)])]; congruence.
      * split; [|done]. intros _. right. exists fields. by split; [|left].
    + split; [|done]. intros _. left. by exists err.
  - intros Hw. by rewrite Hslot, Hw.
  - intros mapped Hw. by rewrite Hslot, Hw.
  - unfold st. apply loop_slot; [done|apply length_initial|by eapply initial_slot].
  - done.
  - unfold carried. by rewrite foldl_app.
  - unfold st', st. by rewrite loop_app, loop_cons.
Qed.

(** C9.  After any number of lines, the first [staticLabelCount] entries
    of the label vector are the ordered static label values of the
    namespace: the loop is entered with them in place, and no line
    changes the entries below [staticLabelCount]. *)
Theorem static_labels_fixed (lines : list (string * Z)) :
  offset = length (OrderedLabelValues nsCfg)
  ∧ take offset (labelValues start) = OrderedLabelValues nsCfg
  ∧ (∀ st (line : string) (now : Z),
       take offset (labelValues (step st line now).1)
       = take offset (labelValues st))
  ∧ take offset (labelValues (run start lines).1) = OrderedLabelValues nsCfg.
Proof.
  assert (take offset (labelValues start) = OrderedLabelValues nsCfg) as Hst.
  { simpl. apply take_copy. rewrite length_replicate.
    unfold totalLabelCount, staticLabelValues. lia. }
  split_and!; [done|done|apply take_processLine|].
  by rewrite take_loop.
Qed.

(** C4.  When the total label count (static label values plus relabeling
    rules left after stripping the excluded ones) exceeds 128,
    [processSource] returns an error without having processed a line or
    touched a metric; with at most 128 labels, 128 included, it runs the
    loop and returns no error. *)
Theorem label_count_limit (lines : list (string * Z)) :
  maxStaticLabels = 128%nat
  ∧ total = (length (OrderedLabelValues nsCfg) + length rules)%nat
  ∧ ((128 < total)%nat →
       source lines
       = (Some "configured label count exceeds the maximum count of 128", []))
  ∧ ((total ≤ 128)%nat → source lines = (None, (run start lines).2)).
Proof.
  split_and!; [done|done|..]; intros H; unfold processSource.
  - by rewrite decide_True.
  - rewrite decide_False; [done|]. unfold maxStaticLabels. lia.
Qed.

(** C5.  A line that the line parser rejects increments the parse-error
    counter once and does nothing else to the pipeline: the label vector
    and the user tracker stay as they are and no labelled metric is
    updated.  The loop goes on with the next line, and the failure is
    not what [processSource] returns. *)
Theorem line_parser_failure_skips_line st (line : string) (now : Z) (err : error) :
  ParseString line = inr err →
  (step st line now).1 = st
  ∧ (step st line now).2 =
      (if PrintLog nsCfg then [Println line] else []) ++
      [LogErrorf ("error while parsing line '" +:+ line +:+ "': " +:+ err);
       ParseErrorsTotal_Inc]
  ∧ parseErrors (step st line now).2 = 1%nat
  ∧ updates (step st line now).2 = []
  ∧ (∀ rest, run st ((line, now) :: rest) =
       ((run st rest).1, (step st line now).2 ++ (run st rest).2))
  ∧ (∀ pre rest, (total ≤ 128)%nat →
       (source (pre ++ (line, now) :: rest)).1 = None).
Proof.
  intros Herr. pose proof (processLine_failed st line now err Herr) as Hstep.
  split_and!.
  - by rewrite Hstep.
  - by rewrite Hstep.
  - rewrite Hstep. simpl. by destruct (PrintLog nsCfg).
  - rewrite Hstep. simpl. by destruct (PrintLog nsCfg).
  - intros rest. rewrite loop_cons. by rewrite Hstep.
  - intros pre rest Hle. unfold processSource.
    rewrite decide_False; [done|]. unfold maxStaticLabels. lia.
Qed.
Lemma extractorOf_local (name : string) fields fields' :
  fields !! name = fields' !! name →
  extractorOf ParseFloat name fields name = extractorOf ParseFloat name fields' name.
Proof.
  intros H. unfold extractorOf.
  repeat destruct (decide (name = _)) as [?|?];
    unfold floatFromFieldsMulti, floatFromFields; by rewrite H.
Qed.

Lemma fieldBlock_local (name : string) fields fields' (labels : list string) :
  fields !! name = fields' !! name →
  fieldBlock ParseFloat name fields labels = fieldBlock ParseFloat name fields' labels.
Proof.
  intros H. unfold fieldBlock, observe, observeMetrics.
  by rewrite (extractorOf_local name fields fields' H).
Qed.

(** The label vector only shows in the updates of a block. *)
Lemma fieldBlock_withLabels (name : string) fields (labels labels' : list string) :
  fieldBlock ParseFloat name fields labels'
    = withLabels labels' <$> fieldBlock ParseFloat name fields labels.
Proof.
  unfold fieldBlock, observe, observeMetrics.
  destruct (extractorOf ParseFloat name fields name) as [[v [|]] [err|]];
    try done; unfold updatesOf;
    repeat destruct (decide (name = _)) as [?|?]; done.
Qed.

Lemma observeFields_blocks fields (labels : list string) :
  observeFields ParseFloat fields labels =
    concat ((λ name, fieldBlock ParseFloat name fields labels) <$> numericFields).
Proof. simpl. by rewrite app_nil_r. Qed.

(** C6.  When the conversion of a recognized numeric field fails, the
    part of the line's effects that belongs to this field is one log
    entry and one increment of the parse-error counter, without metric
    update.  The five fields are handled one after the other, whatever
    the outcome of each, and what is extracted and updated for another
    field is what it would be with any other value in the failing field,
    a well-formed one included. *)
Theorem numeric_failure_is_local fields (labels : list string) (failing : string)
    (v : float64) (err : error) :
  failing ∈ numericFields →
  extractorOf ParseFloat failing fields failing = (v, false, Some err) →
  fieldBlock ParseFloat failing fields labels =
    [LogErrorf ("error while parsing $" +:+ failing +:+ ": " +:+ err);
     ParseErrorsTotal_Inc]
  ∧ parseErrors (fieldBlock ParseFloat failing fields labels) = 1%nat
  ∧ updates (fieldBlock ParseFloat failing fields labels) = []
  ∧ observeFields ParseFloat fields labels =
      concat ((λ name, fieldBlock ParseFloat name fields labels) <$> numericFields)
  ∧ (∀ st (line : string) (now : Z) parsed,
       ParseString line = inl parsed →
       ∃ before notCounterValues,
         (step st line now).2 =
           before ++ observeFields ParseFloat (filterFields parsed nsCfg)
                       notCounterValues)
  ∧ (∀ (other value : string) (labels' : list string),
       other ≠ failing →
       extractorOf ParseFloat other (<[failing := value]> fields) other
       = extractorOf ParseFloat other fields other
       ∧ fieldBlock ParseFloat other (<[failing := value]> fields) labels
         = fieldBlock ParseFloat other fields labels
       ∧ fieldBlock ParseFloat other (<[failing := value]> fields) labels'
         = withLabels labels' <$> fieldBlock ParseFloat other fields labels).
Proof.
  intros _ Hfail.
  assert (fieldBlock ParseFloat failing fields labels =
            [LogErrorf ("error while parsing $" +:+ failing +:+ ": " +:+ err);
             ParseErrorsTotal_Inc]) as Hblock.
  { unfold fieldBlock. by eapply observe_error. }
  split_and!.
  - done.
  - by rewrite Hblock.
  - by rewrite Hblock.
  - apply observeFields_blocks.
  - intros st line now parsed Hparsed.
    rewrite (processLine_effects st line now parsed Hparsed). simpl.
    eexists _, _. rewrite !app_assoc. reflexivity.
  - intros other value labels' Hne.
    assert (<[failing := value]> fields !! other = fields !! other) as Hsame
      by (by apply lookup_insert_ne).
    split_and!; [by apply extractorOf_local | by apply fieldBlock_local |].
    rewrite (fieldBlock_local other _ fields labels' Hsame).
    apply fieldBlock_withLabels.
Qed.
End PipelineFacts.

(** ** Distinct users *)

(** C8.  The distinct-user block runs only with a positive interval.  It
    is skipped exactly when [remote_addr] or [http_user_agent] is
    missing or empty; otherwise the tracker gets the current time under
    the key made of the address, "::" and the user agent, and the gauge
    is set to the number of keys that the tracker then holds. *)
Theorem current_users_observation {RC : Type} (nsCfg : NamespaceConfig RC)
    (fields : gmap string string) (labels : list string) (st : loopState)
    (now : Z) :
  let skipped :=
    fields !! "remote_addr" = None ∨ fields !! "remote_addr" = Some ""
    ∨ fields !! "http_user_agent" = None ∨ fields !! "http_user_agent" = Some "" in
  ((observeCurrentUsers fields (users st) now).1.2 = false ↔ skipped)
  ∧ (skipped →
       observeCurrentUsers fields (users st) now = (Float64.zero, false, users st)
       ∧ (0 < CurrentUserInterval (Metrics nsCfg) →
            observeUsers nsCfg fields labels st now = (users st, true, [])))
  ∧ (∀ remoteAddr userAgent,
       fields !! "remote_addr" = Some remoteAddr →
       fields !! "http_user_agent" = Some userAgent →
       remoteAddr ≠ "" → userAgent ≠ "" →
       let userId := remoteAddr +:+ "::" +:+ userAgent in
       let tracker := <[userId := now]> (users st) in
       let gauge := Float64.of_int (Z.of_nat (size tracker)) in
       observeCurrentUsers fields (users st) now = (gauge, true, tracker)
       ∧ tracker !! userId = Some now
       ∧ size tracker = size (dom tracker)
       ∧ size tracker =
           (if decide (is_Some (users st !! userId)) then size (users st)
            else S (size (users st)))
       ∧ (0 < CurrentUserInterval (Metrics nsCfg) →
            observeUsers nsCfg fields labels st now
            = (tracker, true, [Set_ CurrentUsers labels gauge])))
  ∧ (CurrentUserInterval (Metrics nsCfg) ≤ 0 →
       observeUsers nsCfg fields labels st now = (users st, ticker st, [])).
Proof.
  intros skipped.
  assert (skipped →
          observeCurrentUsers fields (users st) now
          = (Float64.zero, false, users st)) as Hskip.
  { unfold observeCurrentUsers. intros [H|[H|[H|H]]].
    - by rewrite H.
    - by rewrite H.
    - rewrite H. destruct (fields !! "remote_addr"); [|done].
      by destruct (decide (_ = "")).
    - rewrite H. destruct (fields !! "remote_addr"); [|done].
      by destruct (decide (_ = "")). }
  assert (∀ remoteAddr userAgent,
            fields !! "remote_addr" = Some remoteAddr →
            fields !! "http_user_agent" = Some userAgent →
            remoteAddr ≠ "" → userAgent ≠ "" →
            observeCurrentUsers fields (users st) now =
              (Float64.of_int (Z.of_nat (size
                 (<[remoteAddr +:+ "::" +:+ userAgent := now]> (users st)))),
               true, <[remoteAddr +:+ "::" +:+ userAgent := now]> (users st)))
    as Hobs.
  { intros ra ua Hra Hua Hra' Hua'. unfold observeCurrentUsers.
    rewrite Hra, Hua. by rewrite !decide_False by done. }
  split_and!.
  - split; [|intros Hs; by rewrite Hskip].
    intros Hok. unfold skipped.
    destruct (fields !! "remote_addr") as [ra|] eqn:Hra; [|by left].
    destruct (decide (ra = "")) as [->|Hra']; [by right; left|].
    destruct (fields !! "http_user_agent") as [ua|] eqn:Hua;
      [|by right; right; left].
    destruct (decide (ua = "")) as [->|Hua']; [by right; right; right|].
    by rewrite (Hobs ra ua) in Hok.
  - intros Hs. split; [by apply Hskip|]. intros Hpos. unfold observeUsers.
    rewrite (proj2 (Z.ltb_lt _ _)) by done. by rewrite Hskip.
  - intros ra ua Hra Hua Hra' Hua' userId tracker gauge. split_and!.
    + by apply Hobs.
    + apply lookup_insert_eq.
    + symmetry. apply size_dom.
    + unfold tracker.
      destruct (decide (is_Some (users st !! userId))) as [[x Hx]|Hn].
      * by eapply map_size_insert_Some.
      * apply map_size_insert_None. by apply eq_None_not_Some.
    + intros Hpos. unfold observeUsers.
      rewrite (proj2 (Z.ltb_lt _ _)) by done. by rewrite (Hobs ra ua).
  - intros Hle. unfold observeUsers.
    by rewrite (proj2 (Z.ltb_ge _ _)) by done.
Qed.

(** ** The theorems at work on the sample pipeline *)

Lemma current_users_observation_witness :
  observeCurrentUsers
    {[ "remote_addr" := "10.0.0.1"; "http_user_agent" := "curl" ]}
    {[ "10.0.0.2::curl" := 5 ]} 7
  = (Float64.of_int 2, true,
     {[ "10.0.0.1::curl" := 7; "10.0.0.2::curl" := 5 ]}).
Proof.
  pose proof (current_users_observation (Sample.namespace 0 Sample.metricsAll)
                {[ "remote_addr" := "10.0.0.1"; "http_user_agent" := "curl" ]}
                []
                {| labelValues := []; users := {[ "10.0.0.2::curl" := 5 ]};
                   ticker := false |} 7) as H.
  cbv zeta in H. destruct H as (_ & _ & H & _).
  destruct (H "10.0.0.1" "curl") as (Hobs & _); [reflexivity..|discriminate|discriminate|].
  etrans; [apply Hobs|]. vm_compute. reflexivity.
Defined.

Lemma relabel_slot_carry_forward_witness :
  labelValues
    (Sample.step (Sample.namespace 1 Sample.metricsAll)
       (Sample.run (Sample.namespace 1 Sample.metricsAll)
          (Sample.start (Sample.namespace 1 Sample.metricsAll))
          [("status=200 request_time=0.045", 1)]).1
       "request_time=0.1" 2).1
    !! 1%nat
  = Some "200".
Proof.
  unfold Sample.step, Sample.run, Sample.start.
  pose proof (relabel_slot_carry_forward
                Sample.NewRelabelings Sample.DefaultRelabelings
                Sample.UniqueRelabelings Sample.StripExcluded
                Sample.StripOnlyCounterValues Sample.ParseString
                Sample.ParseFloat (Sample.namespace 1 Sample.metricsAll) false
                [("status=200 request_time=0.045", 1)] "request_time=0.1" 2
                0%nat (Sample.passthrough "status" "status") eq_refl) as H.
  cbv zeta in H. destruct H as (_ & Hsame & _ & Hcarried & _).
  etrans; [apply Hsame; reflexivity|].
  etrans; [apply Hcarried|]. vm_compute. reflexivity.
Defined.

Lemma label_count_limit_witness :
  Sample.source (Sample.namespace 128 Sample.metricsAll) [("status=200 request_time=0.045", 1)]
    = (Some "configured label count exceeds the maximum count of 128", [])
  ∧ (Sample.source (Sample.namespace 127 Sample.metricsAll) [("status=200 request_time=0.045", 1)]).1
    = None.
Proof.
  unfold Sample.source. split.
  - apply label_count_limit. vm_compute. lia.
  - destruct (label_count_limit
                Sample.NewRelabelings Sample.DefaultRelabelings
                Sample.UniqueRelabelings Sample.StripExcluded
                Sample.StripOnlyCounterValues Sample.ParseString
                Sample.ParseFloat (Sample.namespace 127 Sample.metricsAll)
                false [("status=200 request_time=0.045", 1)]) as (_ & _ & _ & H).
    rewrite H; [reflexivity|]. vm_compute. lia.
Defined.

Lemma line_parser_failure_skips_line_witness :
  Sample.step (Sample.namespace 1 Sample.metricsAll)
    (Sample.start (Sample.namespace 1 Sample.metricsAll)) "garbage" 3
  = (Sample.start (Sample.namespace 1 Sample.metricsAll),
     [LogErrorf "error while parsing line 'garbage': malformed field 'garbage'";
      ParseErrorsTotal_Inc]).
Proof.
  unfold Sample.step.
  destruct (line_parser_failure_skips_line
              Sample.NewRelabelings Sample.DefaultRelabelings
              Sample.UniqueRelabelings Sample.StripExcluded
              Sample.StripOnlyCounterValues Sample.ParseString
              Sample.ParseFloat (Sample.namespace 1 Sample.metricsAll) false
              (Sample.start (Sample.namespace 1 Sample.metricsAll))
              "garbage" 3 "malformed field 'garbage'" eq_refl)
    as (Hst & Heff & _).
  apply injective_projections; [apply Hst|apply Heff].
Defined.

Lemma numeric_failure_is_local_witness :
  let fields : gmap string string :=
    {[ "request_time" := "abc"; "body_bytes_sent" := "512" ]} in
  fieldBlock Sample.ParseFloat "request_time" fields ["200"]
    = [LogErrorf ("error while parsing $request_time: " +:+ parseError "abc");
       ParseErrorsTotal_Inc]
  ∧ fieldBlock Sample.ParseFloat "body_bytes_sent"
      (<["request_time" := "0.045"]> fields) ["200"]
    = fieldBlock Sample.ParseFloat "body_bytes_sent" fields ["200"]
  ∧ fieldBlock Sample.ParseFloat "body_bytes_sent" fields ["200"]
    = [Add ResponseBytesTotal ["200"] (Float64.of_int 512)].
Proof.
  intros fields.
  destruct (numeric_failure_is_local
              Sample.NewRelabelings Sample.DefaultRelabelings
              Sample.UniqueRelabelings Sample.StripExcluded
              Sample.StripOnlyCounterValues Sample.ParseString
              Sample.ParseFloat (Sample.namespace 0 Sample.metricsAll) false
              fields ["200"] "request_time" Float64.zero (parseError "abc"))
    as (Hblock & _ & _ & _ & _ & Hother).
  - vm_compute. repeat constructor.
  - reflexivity.
  - split_and!.
    + apply Hblock.
    + apply (Hother "body_bytes_sent" "0.045" []). discriminate.
    + vm_compute. reflexivity.
Defined.

(** A line with status 200, 512 bytes sent and a request time of 0.045:
    the total count goes up by one, the byte counter by 512, and 0.045 is
    observed into the summary and the histogram of the response time. *)
Example one_line_end_to_end :
  Sample.source (Sample.namespace 0 Sample.metricsAll)
    [("status=200 body_bytes_sent=512 request_time=0.045", 10)]
  = (None,
     [Inc CountTotal ["200"];
      Add ResponseBytesTotal ["200"] (Float64.of_int 512);
      Observe ResponseSeconds ["200"] (Float64.decimal 45 3);
      Observe ResponseSecondsHist ["200"] (Float64.decimal 45 3)]).
Proof. by vm_compute. Qed.

(** Users A, B and A again: the gauge reads 1, 2 and 2. *)
Example three_requests_two_users :
  updates
    (Sample.source (Sample.namespace 0 Sample.metricsUsersOnly)
       [("remote_addr=10.0.0.1 http_user_agent=curl", 10);
        ("remote_addr=10.0.0.2 http_user_agent=curl", 11);
        ("remote_addr=10.0.0.1 http_user_agent=curl", 12)]).2
  = [Set_ CurrentUsers [""] (Float64.of_int 1);
     Set_ CurrentUsers [""] (Float64.of_int 2);
     Set_ CurrentUsers [""] (Float64.of_int 2)].
Proof. by vm_compute. Qed.

(** A malformed upstream time costs the line that observation only. *)
Example bad_upstream_time :
  Sample.source (Sample.namespace 0 Sample.metricsAll)
    [("status=200 upstream_response_time=0.001,x,0.002 request_time=0.045", 10)]
  = (None,
     [Inc CountTotal ["200"];
      LogErrorf ("error while parsing $upstream_response_time: "
                 +:+ parseError "0.001,x,0.002");
      ParseErrorsTotal_Inc;
      Observe ResponseSeconds ["200"] (Float64.decimal 45 3);
      Observe ResponseSecondsHist ["200"] (Float64.decimal 45 3)]).
Proof. by vm_compute. Qed.

(** * Further properties of the code *)

(** ** The extractors *)

Lemma floatFromFields_outcome (ParseFloat : string → option float64)
    (fields : gmap string string) (key : string) :
  floatFromFields ParseFloat fields key = (Float64.zero, false, None)
    ∧ (fields !! key = None ∨ fields !! key = Some "-")
  ∨ (∃ val f, fields !! key = Some val ∧ val ≠ "-" ∧ ParseFloat val = Some f
       ∧ floatFromFields ParseFloat fields key = (f, true, None))
  ∨ (∃ val, fields !! key = Some val ∧ val ≠ "-" ∧ ParseFloat val = None
       ∧ floatFromFields ParseFloat fields key
         = (Float64.zero, false, Some (parseError val))).
Proof.
  unfold floatFromFields. destruct (fields !! key) as [val|]; [|by left; auto].
  destruct (decide (val = "-")) as [->|Hdash]; [by left; auto|].
  destruct (ParseFloat val) as [f|] eqn:Hf; right; [left|right]; eauto 10.
Qed.

Lemma floatFromFieldsMulti_outcome (ParseFloat : string → option float64)
    (fields : gmap string string) (key : string) :
  floatFromFieldsMulti ParseFloat fields key = (Float64.zero, false, None)
    ∧ (fields !! key = None ∨ fields !! key = Some "-")
  ∨ (∃ val f, fields !! key = Some val ∧ val ≠ "-"
       ∧ floatFromFieldsMulti ParseFloat fields key = (f, true, None))
  ∨ (∃ val, fields !! key = Some val ∧ val ≠ "-"
       ∧ floatFromFieldsMulti ParseFloat fields key
         = (Float64.zero, false, Some (parseError val))).
Proof.
  destruct (fields !! key) as [val|] eqn:Hval.
  - rewrite (floatFromFieldsMulti_unfold _ _ _ _ Hval).
    destruct (decide (val = "-")) as [->|Hdash]; [by left; auto|].
    destruct (ParseFloat val) as [f|]; [right; left; eauto 10|].
    rewrite sumFields_entries. destruct (mapM _ _); right; [left|right]; eauto 10.
  - left. split; [|by left].
    unfold floatFromFieldsMulti, floatFromFields. by rewrite Hval.
Qed.

(** X1.  Whatever the field and the parser of floats, an extractor of
    the pipeline never reports an observation together with an error,
    returns 0 when it reports no observation, and stays silent (no
    observation, no error) on a missing field and on the value "-".  An
    error always concerns a present value other than "-", and its
    message quotes that whole value. *)
Theorem extractor_outcomes (ParseFloat : string → option float64)
    (name key : string) (fields : gmap string string)
    (f : float64) (ok : bool) (err : option error) :
  extractorOf ParseFloat name fields key = (f, ok, err) →
  (ok = true → err = None)
  ∧ (ok = false → f = Float64.zero)
  ∧ (fields !! key = None ∨ fields !! key = Some "-" → ok = false ∧ err = None)
  ∧ (∀ e, err = Some e →
       ∃ val, fields !! key = Some val ∧ val ≠ "-" ∧ e = parseError val).
Proof.
  intros Hr.
  assert (extractorOf ParseFloat name fields key = (Float64.zero, false, None)
            ∧ (fields !! key = None ∨ fields !! key = Some "-")
          ∨ (∃ val f, fields !! key = Some val ∧ val ≠ "-"
               ∧ extractorOf ParseFloat name fields key = (f, true, None))
          ∨ (∃ val, fields !! key = Some val ∧ val ≠ "-"
               ∧ extractorOf ParseFloat name fields key
                 = (Float64.zero, false, Some (parseError val)))) as Hcases.
  { unfold extractorOf.
    repeat destruct (decide (name = _)) as [?|?];
      try apply floatFromFieldsMulti_outcome.
    destruct (floatFromFields_outcome ParseFloat fields key)
      as [?|[(val & f' & ? & ? & ? & ?)|(val & ? & ? & ? & ?)]];
      [by left|right; left; eauto 10|right; right; eauto 10]. }
  destruct Hcases as [[Hz Hk]|[(val & f' & Hk & Hd & Hs)|(val & Hk & Hd & He)]].
  - rewrite Hz in Hr. simplify_eq. split_and!; try done.
  - rewrite Hs in Hr. simplify_eq. split_and!; try done.
    intros [?|?]; congruence.
  - rewrite He in Hr. simplify_eq. split_and!; try done.
    + intros [?|?]; congruence.
    + intros e [= <-]. eauto.
Qed.

Lemma extractor_outcomes_witness :
  ∃ val, ({[ "upstream_connect_time" := "0.1;0.2" ]} : gmap string string)
           !! "upstream_connect_time" = Some val
         ∧ val ≠ "-" ∧ parseError "0.1;0.2" = parseError val.
Proof.
  destruct (extractor_outcomes Sample.ParseFloat "upstream_connect_time"
              "upstream_connect_time" {[ "upstream_connect_time" := "0.1;0.2" ]}
              Float64.zero false (Some (parseError "0.1;0.2")))
    as (_ & _ & _ & H).
  - vm_compute. reflexivity.
  - apply H. reflexivity.
Defined.

(** X2.  On a value without comma or colon that [TrimSpace] leaves as
    it is, and that is not empty, the multi-value extractor returns what
    the single-value extractor returns, whatever the parser of floats
    does: the same observation, the same silence on "-", the same error. *)
Theorem multi_value_agrees_on_plain_values (ParseFloat : string → option float64)
    (fields : gmap string string) (key val : string) :
  fields !! key = Some val →
  val ≠ "" →
  all_bytes (λ c, negb (isDelimiter c)) val = true →
  TrimSpace val = val →
  floatFromFieldsMulti ParseFloat fields key = floatFromFields ParseFloat fields key.
Proof.
  intros Hval Hne Hplain Htrim.
  rewrite (floatFromFieldsMulti_unfold _ _ _ _ Hval).
  unfold floatFromFields. rewrite Hval.
  destruct (decide (val = "-")) as [->|Hdash]; [done|].
  destruct (ParseFloat val) as [f|] eqn:Hf; [done|].
  unfold FieldsFunc. rewrite fieldsFrom_whole by done.
  destruct val as [|c val]; [done|].
  change ("" +:+ String c val) with (String c val). cbn [sumFields].
  rewrite Htrim. rewrite decide_False by done. by rewrite Hf.
Qed.

Lemma multi_value_agrees_on_plain_values_witness :
  floatFromFieldsMulti Sample.ParseFloat
    {[ "upstream_response_time" := "12ms" ]} "upstream_response_time"
  = floatFromFields Sample.ParseFloat
      {[ "upstream_response_time" := "12ms" ]} "upstream_response_time".
Proof.
  apply (multi_value_agrees_on_plain_values Sample.ParseFloat
           {[ "upstream_response_time" := "12ms" ]}
           "upstream_response_time" "12ms");
    [reflexivity|discriminate|reflexivity|reflexivity].
Defined.

(** ** The field filter, again *)

Lemma disabled_other (field : string) (mc : MetricsConfig) :
  field ∉ numericFields → disabled field mc = false.
Proof.
  intros Hf. unfold disabled.
  repeat (destruct (decide (field = _)) as [->|?];
          [exfalso; apply Hf; unfold numericFields; set_solver|]).
  done.
Qed.

(** X3.  Filtering is idempotent and only ever removes fields: the
    filtered mapping is contained in the parsed one, every field other
    than the five numeric ones is kept as it is, and with no metric
    disabled the filter returns the mapping unchanged. *)
Theorem filterFields_idempotent_submap {RC : Type} (fields : gmap string string)
    (nsCfg : NamespaceConfig RC) :
  filterFields (filterFields fields nsCfg) nsCfg = filterFields fields nsCfg
  ∧ filterFields fields nsCfg ⊆ fields
  ∧ (size (filterFields fields nsCfg) ≤ size fields)%nat
  ∧ (∀ field, field ∉ numericFields →
       filterFields fields nsCfg !! field = fields !! field)
  ∧ ((∀ name, name ∈ numericFields → disabled name (Metrics nsCfg) = false) →
       filterFields fields nsCfg = fields).
Proof.
  assert (filterFields fields nsCfg ⊆ fields) as Hsub.
  { apply map_subseteq_spec. intros k v. rewrite filterFields_lookup.
    by destruct (disabled k (Metrics nsCfg)). }
  split_and!.
  - apply map_eq. intros k. rewrite !filterFields_lookup.
    by destruct (disabled k (Metrics nsCfg)).
  - done.
  - by apply map_subseteq_size.
  - intros field Hf. rewrite filterFields_lookup.
    by rewrite (disabled_other field _ Hf).
  - intros Hall. apply map_eq. intros k. rewrite filterFields_lookup.
    destruct (decide (k ∈ numericFields)) as [Hk|Hk].
    + by rewrite (Hall k Hk).
    + by rewrite (disabled_other k _ Hk).
Qed.

Lemma filterFields_idempotent_submap_witness :
  filterFields {[ "request_time" := "0.045"; "status" := "200" ]}
    (Sample.namespace 0 Sample.metricsAll)
  = {[ "request_time" := "0.045"; "status" := "200" ]}.
Proof.
  destruct (filterFields_idempotent_submap
              {[ "request_time" := "0.045"; "status" := "200" ]}
              (Sample.namespace 0 Sample.metricsAll)) as (_ & _ & _ & _ & H).
  apply H. intros name Hname. unfold disabled. simpl.
  by repeat destruct (decide (name = _)).
Defined.

(** ** What a run does to the metrics *)

Lemma elem_of_concat {A : Type} (x : A) (ls : list (list A)) :
  x ∈ concat ls ↔ ∃ l, l ∈ ls ∧ x ∈ l.
Proof.
  induction ls as [|l ls IH]; simpl.
  - split; [by intros ?%elem_of_nil|by intros (l & ?%elem_of_nil & _)].
  - rewrite elem_of_app, IH. split.
    + intros [?|(l' & ? & ?)]; [exists l|exists l']; split; try done;
        [apply list_elem_of_here|by apply list_elem_of_further].
    + intros (l' & [->|?]%elem_of_cons & ?); [by left|right; by exists l'].
Qed.

Lemma touched_app (effects effects' : list effect) :
  touched (effects ++ effects') = touched effects ++ touched effects'.
Proof. apply omap_app. Qed.

Lemma parseErrors_app (effects effects' : list effect) :
  parseErrors (effects ++ effects')
  = (parseErrors effects + parseErrors effects')%nat.
Proof. unfold parseErrors. by rewrite filter_app, length_app. Qed.

Lemma countedTotal_app (effects effects' : list effect) :
  countedTotal (effects ++ effects')
  = (countedTotal effects + countedTotal effects')%nat.
Proof. unfold countedTotal. by rewrite touched_app, filter_app, length_app. Qed.

Lemma touched_updatesOf (name : string) (labels : list string) (v : float64) :
  touched (updatesOf name labels v) = metricsOfField name.
Proof.
  unfold metricsOfField, updatesOf.
  by repeat destruct (decide (name = _)) as [?|?].
Qed.

(** The three shapes of the part of a line that belongs to a field. *)
Lemma fieldBlock_cases (ParseFloat : string → option float64) (name : string)
    (fields : gmap string string) (labels : list string) :
  (fieldBlock ParseFloat name fields labels = []
     ∧ conversionFails ParseFloat fields name = false)
  ∨ (∃ err, fieldBlock ParseFloat name fields labels =
              [LogErrorf ("error while parsing $" +:+ name +:+ ": " +:+ err);
               ParseErrorsTotal_Inc]
            ∧ conversionFails ParseFloat fields name = true)
  ∨ (∃ v, fieldBlock ParseFloat name fields labels = updatesOf name labels v
          ∧ conversionFails ParseFloat fields name = false).
Proof.
  unfold fieldBlock, observe, observeMetrics, conversionFails.
  destruct (extractorOf ParseFloat name fields name) as [[v [|]] [err|]]; simpl.
  - right; right. by exists v.
  - right; right. by exists v.
  - right; left. by exists err.
  - by left.
Qed.

Lemma updatesOf_parseErrors (name : string) (labels : list string) (v : float64) :
  parseErrors (updatesOf name labels v) = 0%nat
  ∧ omap echoOf (updatesOf name labels v) = []
  ∧ Forall (λ e, labelsOf e = Some labels) (updatesOf name labels v).
Proof.
  unfold updatesOf.
  repeat destruct (decide (name = _)) as [?|?]; split_and!;
    try done; by repeat constructor.
Qed.

Lemma fieldBlock_parseErrors (ParseFloat : string → option float64) (name : string)
    (fields : gmap string string) (labels : list string) :
  parseErrors (fieldBlock ParseFloat name fields labels)
  = (if conversionFails ParseFloat fields name then 1 else 0)%nat.
Proof.
  destruct (fieldBlock_cases ParseFloat name fields labels)
    as [[-> ->]|[(err & -> & ->)|(v & -> & ->)]]; [done..|].
  apply updatesOf_parseErrors.
Qed.

Lemma fieldBlock_echo (ParseFloat : string → option float64) (name : string)
    (fields : gmap string string) (labels : list string) :
  omap echoOf (fieldBlock ParseFloat name fields labels) = [].
Proof.
  destruct (fieldBlock_cases ParseFloat name fields labels)
    as [[-> _]|[(err & -> & _)|(v & -> & _)]]; [done..|].
  apply updatesOf_parseErrors.
Qed.

Lemma fieldBlock_labels (ParseFloat : string → option float64) (name : string)
    (fields : gmap string string) (labels : list string) :
  Forall (λ e, ∀ lvs, labelsOf e = Some lvs → lvs = labels)
    (fieldBlock ParseFloat name fields labels).
Proof.
  destruct (fieldBlock_cases ParseFloat name fields labels)
    as [[-> _]|[(err & -> & _)|(v & -> & _)]]; [by repeat constructor..|].
  eapply Forall_impl; [apply updatesOf_parseErrors|].
  intros e He lvs. rewrite He. congruence.
Qed.

Lemma fieldBlock_touched (ParseFloat : string → option float64) (name : string)
    (fields : gmap string string) (labels : list string) :
  touched (fieldBlock ParseFloat name fields labels) = []
  ∨ touched (fieldBlock ParseFloat name fields labels) = metricsOfField name.
Proof.
  destruct (fieldBlock_cases ParseFloat name fields labels)
    as [[-> _]|[(err & -> & _)|(v & -> & _)]]; [by left..|].
  right. apply touched_updatesOf.
Qed.

Lemma extractorOf_missing (ParseFloat : string → option float64) (name : string)
    (fields : gmap string string) :
  fields !! name = None →
  extractorOf ParseFloat name fields name = (Float64.zero, false, None).
Proof.
  intros H. unfold extractorOf.
  repeat destruct (decide (name = _)) as [?|?];
    unfold floatFromFieldsMulti, floatFromFields; by rewrite H.
Qed.

(** A field that the filter has dropped leaves no trace in the line. *)
Lemma fieldBlock_disabled {RC : Type} (ParseFloat : string → option float64)
    (nsCfg : NamespaceConfig RC) (name : string) (fields : gmap string string)
    (labels : list string) :
  disabled name (Metrics nsCfg) = true →
  fieldBlock ParseFloat name (filterFields fields nsCfg) labels = []
  ∧ conversionFails ParseFloat (filterFields fields nsCfg) name = false.
Proof.
  intros Hd.
  assert (filterFields fields nsCfg !! name = None) as Hnone
    by (by rewrite filterFields_lookup, Hd).
  pose proof (extractorOf_missing ParseFloat name _ Hnone) as Hex.
  split.
  - unfold fieldBlock. by eapply observe_skip.
  - unfold conversionFails. by rewrite Hex.
Qed.

Lemma touched_concat (blocks : list (list effect)) (m : metric) :
  m ∈ touched (concat blocks) → ∃ block, block ∈ blocks ∧ m ∈ touched block.
Proof.
  induction blocks as [|b blocks IH]; simpl.
  - by intros ?%elem_of_nil.
  - rewrite touched_app, elem_of_app. intros [?|(b' & ? & ?)%IH].
    + exists b. split; [apply list_elem_of_here|done].
    + exists b'. split; [by apply list_elem_of_further|done].
Qed.

Lemma countedTotal_none (effects : list effect) :
  CountTotal ∉ touched effects → countedTotal effects = 0%nat.
Proof.
  unfold countedTotal. induction (touched effects) as [|m ms IH]; [done|].
  intros [Hm Hms]%not_elem_of_cons.
  rewrite filter_cons_False by (by intros ->). by apply IH.
Qed.

Local Ltac members :=
  repeat match goal with
         | H : _ ∈ [] |- _ => by apply elem_of_nil in H
         | H : _ ∈ _ :: _ |- _ =>
             apply elem_of_cons in H as [?|H]; [try discriminate; subst|]
         end.

Local Ltac field_metrics :=
  repeat match goal with
         | H : context [metricsOfField ?n] |- _ =>
             let l := eval vm_compute in (metricsOfField n) in
             change (metricsOfField n) with l in H
         end.

(** No metric is fed by two numeric fields, and none of them feeds the
    total count or the user gauge. *)
Lemma metricsOfField_disjoint (name name' : string) (m : metric) :
  name ∈ numericFields → m ∈ metricsOfField name →
  m ≠ CountTotal ∧ m ≠ CurrentUsers
  ∧ (name' ∈ numericFields → m ∈ metricsOfField name' → name' = name).
Proof.
  intros Hn Hm. unfold numericFields in *. members; field_metrics; members;
    (split_and!; [done|done|]); intros Hn' Hm'; members; try done;
    field_metrics; members.
Qed.

Section RunFacts.
Context {RelabelConfig : Type}.
Variable NewRelabelings : list RelabelConfig → list Relabeling.
Variable DefaultRelabelings : list Relabeling.
Variable UniqueRelabelings : list Relabeling → list Relabeling.
Variable StripExcluded : list Relabeling → list Relabeling.
Variable StripOnlyCounterValues : list string → list Relabeling → list string.
Variable ParseString : string → gmap string string + error.
Variable ParseFloat : string → option float64.
Variable nsCfg : NamespaceConfig RelabelConfig.
Variable hasCounterOnlyLabels : bool.

Local Abbreviation rules :=
  (relabelings NewRelabelings DefaultRelabelings UniqueRelabelings
     StripExcluded nsCfg).
Local Abbreviation total :=
  (totalLabelCount NewRelabelings DefaultRelabelings UniqueRelabelings
     StripExcluded nsCfg).
Local Abbreviation start :=
  (initial NewRelabelings DefaultRelabelings UniqueRelabelings
     StripExcluded nsCfg).
Local Abbreviation step :=
  (processLine NewRelabelings DefaultRelabelings UniqueRelabelings
     StripExcluded StripOnlyCounterValues ParseString ParseFloat nsCfg
     hasCounterOnlyLabels).
Local Abbreviation run :=
  (loop NewRelabelings DefaultRelabelings UniqueRelabelings
     StripExcluded StripOnlyCounterValues ParseString ParseFloat nsCfg
     hasCounterOnlyLabels).
Local Abbreviation source :=
  (processSource NewRelabelings DefaultRelabelings UniqueRelabelings
     StripExcluded StripOnlyCounterValues ParseString ParseFloat nsCfg
     hasCounterOnlyLabels).
Local Abbreviation echo :=
  (λ line : string, if PrintLog nsCfg then [Println line] else []).
Local Abbreviation blocks :=
  (λ fields labels,
     concat ((λ name, fieldBlock ParseFloat name (filterFields fields nsCfg) labels)
               <$> numericFields)).

Implicit Types (st : loopState) (lines : list (string * Z)).

(** The effects of one iteration, part by part. *)
Lemma processLine_shape st (line : string) (now : Z) :
  (∃ err, ParseString line = inr err
     ∧ (step st line now).1 = st
     ∧ (step st line now).2 =
         echo line ++
         [LogErrorf ("error while parsing line '" +:+ line +:+ "': " +:+ err);
          ParseErrorsTotal_Inc])
  ∨ (∃ fields lv nv gauged,
       ParseString line = inl fields
       ∧ lv = labelValues (step st line now).1
       ∧ nv = (if hasCounterOnlyLabels
               then StripOnlyCounterValues lv rules else lv)
       ∧ (gauged = []
          ∨ 0 < CurrentUserInterval (Metrics nsCfg)
            ∧ ∃ v, gauged = [Set_ CurrentUsers nv v])
       ∧ (step st line now).2 =
           echo line
           ++ (if DisableCountTotal (Metrics nsCfg) then []
               else [Inc CountTotal lv])
           ++ gauged ++ blocks fields nv).
Proof.
  destruct (ParseString line) as [fields|err] eqn:Hline.
  - right.
    pose proof (processLine_labelValues NewRelabelings DefaultRelabelings
                  UniqueRelabelings StripExcluded StripOnlyCounterValues
                  ParseString ParseFloat nsCfg hasCounterOnlyLabels
                  st line now) as Hlv.
    rewrite Hline in Hlv.
    eexists fields, _, _, _. split_and!; [done|done|done| |].
    2:{ rewrite (processLine_effects _ _ _ _ _ _ _ _ _ st line now fields Hline).
        cbv zeta. rewrite observeFields_blocks, <- Hlv. reflexivity. }
    rewrite <- Hlv. unfold observeUsers.
    destruct (0 <? CurrentUserInterval (Metrics nsCfg)) eqn:Hpos; [|by left].
    apply Z.ltb_lt in Hpos.
    destruct (observeCurrentUsers _ _ _) as [[v [|]] tracker]; simpl;
      [right; split; [done|by exists v] | by left].
  - left. exists err.
    rewrite (processLine_failed _ _ _ _ _ _ _ _ _ st line now err Hline).
    done.
Qed.
Lemma enabledMetrics_inv (mc : MetricsConfig) (m : metric) :
  m ∈ enabledMetrics mc →
  (m = CountTotal ∧ DisableCountTotal mc = false)
  ∨ (m = CurrentUsers ∧ 0 < CurrentUserInterval mc)
  ∨ (∃ name, name ∈ numericFields ∧ disabled name mc = false
             ∧ m ∈ metricsOfField name).
Proof.
  unfold enabledMetrics. rewrite !elem_of_app. intros [H|[H|H]].
  - destruct (DisableCountTotal mc); [by apply elem_of_nil in H|].
    apply list_elem_of_singleton in H. by left.
  - destruct (0 <? CurrentUserInterval mc) eqn:Hpos; [|by apply elem_of_nil in H].
    apply list_elem_of_singleton in H. apply Z.ltb_lt in Hpos. by right; left.
  - apply elem_of_concat in H as (l & Hl & Hm).
    apply list_elem_of_fmap in Hl as (name & -> & Hname).
    apply list_elem_of_filter in Hname as [Hd Hname]. right; right. by exists name.
Qed.

Lemma blocks_touched (fields : gmap string string) (labels : list string)
    (m : metric) :
  m ∈ touched (blocks fields labels) →
  ∃ name, name ∈ numericFields ∧ disabled name (Metrics nsCfg) = false
          ∧ m ∈ metricsOfField name.
Proof.
  intros (block & Hb & Hm)%touched_concat.
  apply list_elem_of_fmap in Hb as (name & -> & Hname).
  exists name. split; [done|].
  destruct (disabled name (Metrics nsCfg)) eqn:Hd.
  - rewrite (proj1 (fieldBlock_disabled ParseFloat nsCfg name fields labels Hd))
      in Hm. by apply elem_of_nil in Hm.
  - split; [done|].
    destruct (fieldBlock_touched ParseFloat name (filterFields fields nsCfg) labels)
      as [He|He]; rewrite He in Hm; [by apply elem_of_nil in Hm|done].
Qed.

Lemma processLine_touched st (line : string) (now : Z) (m : metric) :
  m ∈ touched (step st line now).2 → m ∈ enabledMetrics (Metrics nsCfg).
Proof.
  destruct (processLine_shape st line now)
    as [(err & _ & _ & ->)|(fields & lv & nv & gauged & _ & _ & _ & Hg & ->)].
  - destruct (PrintLog nsCfg); cbn; by intros ?%elem_of_nil.
  - rewrite !touched_app, !elem_of_app. unfold enabledMetrics.
    rewrite !elem_of_app. intros [H|[H|[H|H]]].
    + destruct (PrintLog nsCfg); cbn in H; by apply elem_of_nil in H.
    + left. by destruct (DisableCountTotal (Metrics nsCfg)).
    + destruct Hg as [->|(Hpos & v & ->)]; [by apply elem_of_nil in H|].
      right; left. by rewrite (proj2 (Z.ltb_lt _ _) Hpos).
    + right; right. apply blocks_touched in H as (name & Hname & Hd & Hm).
      apply elem_of_concat. exists (metricsOfField name). split; [|done].
      apply list_elem_of_fmap. exists name. split; [done|].
      by apply list_elem_of_filter.
Qed.

Lemma processLine_users_off st (line : string) (now : Z) :
  CurrentUserInterval (Metrics nsCfg) ≤ 0 →
  users (step st line now).1 = users st ∧ ticker (step st line now).1 = ticker st.
Proof.
  intros Hle. unfold processLine. destruct (ParseString line); [|done].
  unfold observeUsers. by rewrite (proj2 (Z.ltb_ge _ _) Hle).
Qed.

(** X4.  A run only updates the metrics that the configuration leaves
    enabled.  So the metrics fed by a numeric field whose metric is
    disabled are never updated, the total count is never incremented
    when it is disabled, and with an interval of zero or less the user
    gauge is never set and the tracker never changes. *)
Theorem only_enabled_metrics_updated st lines :
  (∀ m, m ∈ touched (run st lines).2 → m ∈ enabledMetrics (Metrics nsCfg))
  ∧ (∀ name m, name ∈ numericFields →
       disabled name (Metrics nsCfg) = true →
       m ∈ metricsOfField name → m ∉ touched (run st lines).2)
  ∧ (DisableCountTotal (Metrics nsCfg) = true →
       CountTotal ∉ touched (run st lines).2)
  ∧ (CurrentUserInterval (Metrics nsCfg) ≤ 0 →
       (CurrentUsers ∉ touched (run st lines).2)
       ∧ users (run st lines).1 = users st
       ∧ ticker (run st lines).1 = ticker st).
Proof.
  assert (∀ m, m ∈ touched (run st lines).2 → m ∈ enabledMetrics (Metrics nsCfg))
    as Hen.
  { revert st. induction lines as [|[line now] lines IH]; intros st m.
    - by intros ?%elem_of_nil.
    - rewrite loop_cons. simpl. rewrite touched_app, elem_of_app.
      intros [H|H]; [by eapply processLine_touched|by eapply IH]. }
  split_and!; [done|..].
  - intros name m Hname Hd Hm Ht%Hen.
    destruct (metricsOfField_disjoint name name m Hname Hm) as (? & ? & _).
    apply enabledMetrics_inv in Ht
      as [[? _]|[[? _]|(name' & Hname' & Hd' & Hm')]]; [done..|].
    destruct (metricsOfField_disjoint name name' m Hname Hm) as (_ & _ & Heq).
    rewrite (Heq Hname' Hm') in Hd'. congruence.
  - intros Hd Ht%Hen.
    apply enabledMetrics_inv in Ht
      as [[_ ?]|[[? _]|(name' & Hname' & _ & Hm')]]; [congruence|done|].
    by destruct (metricsOfField_disjoint name' name' _ Hname' Hm') as (? & _).
  - intros Hle. split.
    + intros Ht%Hen.
      apply enabledMetrics_inv in Ht
        as [[? _]|[[_ ?]|(name' & Hname' & _ & Hm')]]; [done|lia|].
      by destruct (metricsOfField_disjoint name' name' _ Hname' Hm') as (_ & ? & _).
    + clear Hen. revert st. induction lines as [|[line now] lines IH]; intros st.
      * done.
      * rewrite loop_cons. simpl.
        destruct (IH (step st line now).1) as [-> ->].
        by apply processLine_users_off.
Qed.

Lemma processLine_countedTotal st (line : string) (now : Z) :
  countedTotal (step st line now).2 =
    (if DisableCountTotal (Metrics nsCfg) then 0
     else if parses ParseString line then 1 else 0)%nat.
Proof.
  unfold parses.
  destruct (processLine_shape st line now)
    as [(err & -> & _ & ->)|(fields & lv & nv & gauged & -> & _ & _ & Hg & ->)].
  - by destruct (PrintLog nsCfg), (DisableCountTotal (Metrics nsCfg)).
  - rewrite !countedTotal_app.
    assert (countedTotal (echo line) = 0%nat) as ->
      by (by destruct (PrintLog nsCfg)).
    assert (countedTotal gauged = 0%nat) as ->
      by (by destruct Hg as [->|(_ & v & ->)]).
    rewrite (countedTotal_none (concat _)).
    + by destruct (DisableCountTotal (Metrics nsCfg)).
    + intros (name & Hname & _ & Hm)%blocks_touched.
      by destruct (metricsOfField_disjoint name name _ Hname Hm) as (? & _).
Qed.

(** X5.  Unless the total count is disabled, a run increments it once
    for every line that the line parser accepts, and never otherwise. *)
Theorem total_count_counts_parsed_lines st lines :
  countedTotal (run st lines).2 =
    if DisableCountTotal (Metrics nsCfg) then 0%nat
    else length (filter (λ l, parses ParseString l.1 = true) lines).
Proof.
  revert st. induction lines as [|[line now] lines IH]; intros st.
  - by destruct (DisableCountTotal (Metrics nsCfg)).
  - rewrite loop_cons. simpl. rewrite countedTotal_app, IH.
    rewrite processLine_countedTotal.
    destruct (DisableCountTotal (Metrics nsCfg)); [done|].
    rewrite filter_cons. simpl.
    by destruct (parses ParseString line).
Qed.

Lemma blocks_echo (fields : gmap string string) (labels : list string) :
  omap echoOf (blocks fields labels) = [].
Proof. simpl. by rewrite !omap_app, !fieldBlock_echo. Qed.

Lemma processLine_echo st (line : string) (now : Z) :
  omap echoOf (step st line now).2 = if PrintLog nsCfg then [line] else [].
Proof.
  destruct (processLine_shape st line now)
    as [(err & _ & _ & ->)|(fields & lv & nv & gauged & _ & _ & _ & Hg & ->)].
  - by destruct (PrintLog nsCfg).
  - rewrite !omap_app, blocks_echo.
    assert (omap echoOf gauged = []) as ->
      by (by destruct Hg as [->|(_ & v & ->)]).
    by destruct (PrintLog nsCfg), (DisableCountTotal (Metrics nsCfg)).
Qed.

(** X7.  With [print_log] set, a run echoes every line it reads, parsed
    or not, once and in order; without it, nothing is printed. *)
Theorem print_log_echoes_every_line st lines :
  omap echoOf (run st lines).2 = if PrintLog nsCfg then lines.*1 else [].
Proof.
  revert st. induction lines as [|[line now] lines IH]; intros st.
  - by destruct (PrintLog nsCfg).
  - rewrite loop_cons. simpl. rewrite omap_app, IH, processLine_echo.
    by destruct (PrintLog nsCfg).
Qed.

Lemma blocks_parseErrors (fields : gmap string string) (labels : list string) :
  parseErrors (blocks fields labels) =
    length (filter (λ name, conversionFails ParseFloat
                              (filterFields fields nsCfg) name = true)
              numericFields).
Proof.
  unfold numericFields. rewrite !fmap_cons, fmap_nil. simpl concat.
  rewrite !parseErrors_app, !fieldBlock_parseErrors.
  rewrite !filter_cons, filter_nil.
  repeat destruct (conversionFails ParseFloat (filterFields fields nsCfg) _);
    reflexivity.
Qed.

Lemma processLine_parseErrors st (line : string) (now : Z) :
  parseErrors (step st line now).2 = lineErrors ParseString ParseFloat nsCfg line.
Proof.
  unfold lineErrors.
  destruct (processLine_shape st line now)
    as [(err & -> & _ & ->)|(fields & lv & nv & gauged & -> & _ & _ & Hg & ->)].
  - by destruct (PrintLog nsCfg).
  - rewrite !parseErrors_app, blocks_parseErrors.
    assert (parseErrors gauged = 0%nat) as ->
      by (by destruct Hg as [->|(_ & v & ->)]).
    by destruct (PrintLog nsCfg), (DisableCountTotal (Metrics nsCfg)).
Qed.

(** X8.  The parse-error counter is incremented once for every line that
    does not parse and once for every numeric field of a parsed line
    that the filter keeps and whose conversion fails; nothing else
    increments it. *)
Theorem parse_errors_accounted st lines :
  parseErrors (run st lines).2 =
    sum_list (lineErrors ParseString ParseFloat nsCfg <$> lines.*1).
Proof.
  revert st. induction lines as [|[line now] lines IH]; intros st; [done|].
  rewrite loop_cons. simpl.
  by rewrite parseErrors_app, IH, processLine_parseErrors.
Qed.
Lemma processLine_labels st (line : string) (now : Z) (e : effect)
    (lvs : list string) :
  e ∈ (step st line now).2 → labelsOf e = Some lvs →
  lvs = labelValues (step st line now).1
  ∨ (metricOf e ≠ Some CountTotal
     ∧ lvs = if hasCounterOnlyLabels
             then StripOnlyCounterValues (labelValues (step st line now).1) rules
             else labelValues (step st line now).1).
Proof.
  destruct (processLine_shape st line now)
    as [(err & _ & _ & ->)|(fields & lv & nv & gauged & _ & <- & <- & Hg & ->)].
  - intros He Hl. destruct (PrintLog nsCfg); simpl in He; members; discriminate.
  - rewrite !elem_of_app. intros [He|[He|[He|He]]] Hl.
    + destruct (PrintLog nsCfg); members; discriminate.
    + destruct (DisableCountTotal (Metrics nsCfg)); members.
      left. by injection Hl as <-.
    + destruct Hg as [->|(_ & v & ->)]; members.
      right. split; [done|]. by injection Hl as <-.
    + apply elem_of_concat in He as (block & Hb & He).
      apply list_elem_of_fmap in Hb as (name & -> & Hname).
      right. split.
      * intros Hm.
        assert (CountTotal ∈ touched
                  (fieldBlock ParseFloat name (filterFields fields nsCfg) nv))
          as Ht by (apply list_elem_of_omap; eauto).
        destruct (fieldBlock_touched ParseFloat name (filterFields fields nsCfg) nv)
          as [Hn|Hn]; rewrite Hn in Ht; [by apply elem_of_nil in Ht|].
        by destruct (metricsOfField_disjoint name name _ Hname Ht) as (? & _).
      * pose proof (fieldBlock_labels ParseFloat name
                      (filterFields fields nsCfg) nv) as Hall.
        rewrite Forall_forall in Hall. by apply (Hall e He).
Qed.

(** X6.  From its initial state on, a run keeps the label vector at the
    total label count, so every increment of the total count carries
    that many label values, and so does every other metric update when
    no relabeling is for the counter only.  When [processSource] returns
    no error, that count is at most 128. *)
Theorem label_vectors_keep_their_length lines :
  length (labelValues (run start lines).1) = total
  ∧ (∀ e lvs, e ∈ (run start lines).2 → metricOf e = Some CountTotal →
       labelsOf e = Some lvs → length lvs = total)
  ∧ (hasCounterOnlyLabels = false →
       ∀ e lvs, e ∈ (run start lines).2 → labelsOf e = Some lvs →
                length lvs = total)
  ∧ ((source lines).1 = None → (total ≤ 128)%nat).
Proof.
  assert (∀ st, length (labelValues st) = total →
            ∀ e lvs, e ∈ (run st lines).2 → labelsOf e = Some lvs →
              (metricOf e = Some CountTotal ∨ hasCounterOnlyLabels = false) →
              length lvs = total) as Hrun.
  { induction lines as [|[line now] lines IH]; intros st Hlen e lvs.
    - by intros ?%elem_of_nil.
    - rewrite loop_cons. simpl. rewrite elem_of_app.
      assert (length (labelValues (step st line now).1) = total) as Hlen'
        by (by rewrite length_processLine).
      intros [He|He] Hl Hc; [|by eapply (IH _ Hlen')].
      destruct (processLine_labels st line now e lvs He Hl) as [-> | [Hm ->]];
        [done|].
      destruct Hc as [? | ->]; done. }
  split_and!.
  - rewrite length_loop. apply length_initial.
  - intros e lvs He Hm Hl.
    eapply (Hrun start); [apply length_initial|done|done|by left].
  - intros Hflag e lvs He Hl.
    eapply (Hrun start); [apply length_initial|done|done|by right].
  - unfold processSource, maxStaticLabels.
    destruct (decide (128 < total)%nat); [done|lia].
Qed.

Lemma relabel_above (rs : list Relabeling) (i j : nat)
    (fields : gmap string string) (lv : list string) :
  (i + length rs + relabelLabelOffset nsCfg ≤ j)%nat →
  relabel nsCfg rs i fields lv !! j = lv !! j.
Proof.
  revert i lv. induction rs as [|r rs IH]; intros i lv Hj; [done|].
  simpl in *. rewrite IH by lia.
  repeat match goal with
         | |- context [match ?x with _ => _ end] => destruct x eqn:?
         end; try done.
  apply list_lookup_insert_ne. lia.
Qed.

Lemma relabel_idempotent (fields : gmap string string) (lv : list string) :
  relabel nsCfg rules 0 fields (relabel nsCfg rules 0 fields lv)
  = relabel nsCfg rules 0 fields lv.
Proof.
  apply list_eq. intros j.
  destruct (decide (j < relabelLabelOffset nsCfg)%nat) as [Hlo|Hlo].
  { by rewrite !relabel_below by lia. }
  destruct (decide (relabelLabelOffset nsCfg + length rules ≤ j)%nat) as [Hhi|Hhi].
  { by rewrite !relabel_above by lia. }
  destruct (decide (j < length lv)%nat) as [Hin|Hout].
  - destruct (lookup_lt_is_Some_2 rules (j - relabelLabelOffset nsCfg)) as [r Hr];
      [lia|].
    replace j with (0 + (j - relabelLabelOffset nsCfg) + relabelLabelOffset nsCfg)%nat
      by lia.
    rewrite !(relabel_slot nsCfg _ _ _ _ _ r Hr)
      by (rewrite ?length_relabel; lia).
    by destruct (written r fields).
  - rewrite !lookup_ge_None_2; [done|rewrite ?length_relabel; lia..].
Qed.

(** X9.  Reading the same line again changes nothing in the label
    vector: the vector after the second reading is the vector after the
    first. *)
Theorem repeated_line_keeps_label_vector st (line : string) (now now' : Z) :
  labelValues (step (step st line now).1 line now').1
  = labelValues (step st line now).1.
Proof.
  rewrite !processLine_labelValues.
  destruct (ParseString line) as [fields|]; [|done].
  apply relabel_idempotent.
Qed.
End RunFacts.

Lemma only_enabled_metrics_updated_witness :
  ResponseSeconds ∉
    touched
      (Sample.run (Sample.namespace 0 Sample.metricsNoDurations)
         (Sample.start (Sample.namespace 0 Sample.metricsNoDurations))
         [("status=200 request_time=0.045", 1)]).2.
Proof.
  unfold Sample.run.
  destruct (only_enabled_metrics_updated
              Sample.NewRelabelings Sample.DefaultRelabelings
              Sample.UniqueRelabelings Sample.StripExcluded
              Sample.StripOnlyCounterValues Sample.ParseString
              Sample.ParseFloat (Sample.namespace 0 Sample.metricsNoDurations)
              false
              (Sample.start (Sample.namespace 0 Sample.metricsNoDurations))
              [("status=200 request_time=0.045", 1)]) as (_ & H & _).
  apply (H "request_time").
  - unfold numericFields. repeat constructor.
  - reflexivity.
  - apply list_elem_of_here.
Defined.

Lemma label_vectors_keep_their_length_witness :
  (totalLabelCount Sample.NewRelabelings Sample.DefaultRelabelings
     Sample.UniqueRelabelings Sample.StripExcluded
     (Sample.namespace 3 Sample.metricsAll) ≤ 128)%nat.
Proof.
  destruct (label_vectors_keep_their_length
              Sample.NewRelabelings Sample.DefaultRelabelings
              Sample.UniqueRelabelings Sample.StripExcluded
              Sample.StripOnlyCounterValues Sample.ParseString
              Sample.ParseFloat (Sample.namespace 3 Sample.metricsAll) false
              [("status=200 request_time=0.045", 1)]) as (_ & _ & _ & H).
  apply H. reflexivity.
Defined.

(** ** Pruning the tracker *)

Lemma int64_small (z : Z) : - 2 ^ 63 ≤ z < 2 ^ 63 → int64 z = z.
Proof. intros Hz. unfold int64. rewrite Z.mod_small; lia. Qed.

Lemma pruneUsers_lookup (interval : Z) (now : string → Z)
    (users : gmap string Z) (user : string) :
  pruneUsers interval now users !! user =
    match users !! user with
    | Some lastSeen =>
        if expired interval (now user) lastSeen then None else Some lastSeen
    | None => None
    end.
Proof.
  unfold pruneUsers.
  enough (∀ acc : gmap string Z,
            map_fold
              (λ user lastSeen users,
                 if expired interval (now user) lastSeen
                 then delete user users else users) acc users !! user =
            match users !! user with
            | Some lastSeen =>
                if expired interval (now user) lastSeen then None
                else acc !! user
            | None => acc !! user
            end) as H.
  { rewrite H. by destruct (users !! user). }
  intros acc.
  apply (map_fold_weak_ind (λ (r m : gmap string Z),
    r !! user =
      match m !! user with
      | Some lastSeen =>
          if expired interval (now user) lastSeen then None else acc !! user
      | None => acc !! user
      end)).
  - by rewrite lookup_empty.
  - intros k t m r Hk IH.
    destruct (decide (k = user)) as [->|Hne].
    + rewrite lookup_insert_eq. rewrite Hk in IH.
      destruct (expired interval (now user) t); [apply lookup_delete_eq|done].
    + rewrite lookup_insert_ne by done.
      destruct (expired interval (now k) t); [|done].
      by rewrite lookup_delete_ne.
Qed.

(** X10.  The pruning pass keeps exactly the users last seen no longer
    ago than the interval, each with its time stamp, and neither adds
    nor changes an entry; pruning again at the same clock readings
    changes nothing more.  The tick then sets the gauge to the number of
    users kept: 0 when every user has expired. *)
Theorem pruning_keeps_recent_users {RC : Type} (nsCfg : NamespaceConfig RC)
    (now : string → Z) (labels : list string) (users : gmap string Z) :
  let interval := CurrentUserInterval (Metrics nsCfg) in
  let kept := pruneUsers interval now users in
  (∀ user lastSeen,
     kept !! user = Some lastSeen ↔
       users !! user = Some lastSeen ∧ int64 (now user - lastSeen) ≤ interval)
  ∧ kept ⊆ users
  ∧ (size kept ≤ size users)%nat
  ∧ pruneUsers interval now kept = kept
  ∧ tick nsCfg now labels users =
      (kept, [Set_ CurrentUsers labels (Float64.of_int (Z.of_nat (size kept)))])
  ∧ ((∀ user lastSeen, users !! user = Some lastSeen →
        interval < int64 (now user - lastSeen)) →
       tick nsCfg now labels users
       = (∅, [Set_ CurrentUsers labels Float64.zero])).
Proof.
  intros interval kept.
  assert (∀ user lastSeen,
            kept !! user = Some lastSeen ↔
              users !! user = Some lastSeen
              ∧ int64 (now user - lastSeen) ≤ interval) as Hkept.
  { intros user lastSeen. unfold kept. rewrite pruneUsers_lookup.
    unfold expired. destruct (users !! user) as [t|]; [|by intuition].
    destruct (interval <? int64 (now user - t)) eqn:Hexp.
    - apply Z.ltb_lt in Hexp. split; [done|]. intros [[= ->] ?]. lia.
    - apply Z.ltb_ge in Hexp. split; [by intros [= ->]|by intros [? _]]. }
  assert (kept ⊆ users) as Hsub.
  { apply map_subseteq_spec. intros user t Hu. by apply Hkept in Hu as [? _]. }
  split_and!; [done|done|by apply map_subseteq_size| |done|].
  - apply map_eq. intros user. rewrite pruneUsers_lookup.
    destruct (kept !! user) as [t|] eqn:Hu; [|done].
    apply Hkept in Hu as [_ Hu]. unfold expired.
    by rewrite (proj2 (Z.ltb_ge _ _) Hu).
  - intros Hall. unfold tick. fold interval. fold kept.
    assert (kept = ∅) as ->.
    { apply map_eq. intros user. rewrite lookup_empty.
      destruct (kept !! user) as [t|] eqn:Hu; [|done].
      apply Hkept in Hu as [Hu Hle]. specialize (Hall user t Hu). lia. }
    done.
Qed.

Lemma pruning_keeps_recent_users_witness :
  tick (Sample.namespace 0 Sample.metricsAll) (λ _, 1000) ["200"]
    {[ "10.0.0.1::curl" := 100; "10.0.0.2::curl" := 650 ]}
  = (∅, [Set_ CurrentUsers ["200"] Float64.zero]).
Proof.
  apply (pruning_keeps_recent_users (Sample.namespace 0 Sample.metricsAll)
           (λ _, 1000) ["200"]
           {[ "10.0.0.1::curl" := 100; "10.0.0.2::curl" := 650 ]}).
  intros user lastSeen.
  destruct (decide (user = "10.0.0.1::curl")) as [->|?];
    [|destruct (decide (user = "10.0.0.2::curl")) as [->|?]].
  - rewrite lookup_insert_eq. intros [= <-]. by vm_compute.
  - rewrite lookup_insert_ne, lookup_singleton_eq by done.
    intros [= <-]. by vm_compute.
  - by rewrite lookup_insert_ne, lookup_singleton_ne by done.
Defined.

(** X11.  A user observed at time [t] is still in the tracker after a
    pruning pass that reads the clock no later than [t] plus the
    interval, and is gone after a pass that reads it later (the
    difference being within the range of 64-bit integers). *)
Theorem observed_user_expires_after_interval (fields : gmap string string)
    (users : gmap string Z) (t interval : Z) (now : string → Z)
    (remoteAddr userAgent : string) :
  fields !! "remote_addr" = Some remoteAddr →
  fields !! "http_user_agent" = Some userAgent →
  remoteAddr ≠ "" → userAgent ≠ "" →
  let userId := remoteAddr +:+ "::" +:+ userAgent in
  let tracker := (observeCurrentUsers fields users t).2 in
  - 2 ^ 63 ≤ now userId - t < 2 ^ 63 →
  (now userId - t ≤ interval →
     pruneUsers interval now tracker !! userId = Some t)
  ∧ (interval < now userId - t →
       pruneUsers interval now tracker !! userId = None)
  ∧ (∀ other, other ≠ userId →
       pruneUsers interval now tracker !! other
       = pruneUsers interval now users !! other).
Proof.
  intros Hra Hua Hra' Hua' userId tracker Hrange.
  assert (tracker = <[userId := t]> users) as ->.
  { unfold tracker, observeCurrentUsers. rewrite Hra, Hua.
    by rewrite !decide_False by done. }
  split_and!.
  - intros Hle. rewrite pruneUsers_lookup, lookup_insert_eq. unfold expired.
    rewrite int64_small by done. by rewrite (proj2 (Z.ltb_ge _ _) Hle).
  - intros Hlt. rewrite pruneUsers_lookup, lookup_insert_eq. unfold expired.
    rewrite int64_small by done. by rewrite (proj2 (Z.ltb_lt _ _) Hlt).
  - intros other Hne. rewrite !pruneUsers_lookup.
    by rewrite lookup_insert_ne.
Qed.

Lemma observed_user_expires_after_interval_witness :
  pruneUsers 300 (λ _, 1300)
    (observeCurrentUsers
       {[ "remote_addr" := "10.0.0.1"; "http_user_agent" := "curl" ]}
       ∅ 1000).2
    !! "10.0.0.1::curl"
  = Some 1000.
Proof.
  apply (observed_user_expires_after_interval
           {[ "remote_addr" := "10.0.0.1"; "http_user_agent" := "curl" ]}
           ∅ 1000 300 (λ _, 1300) "10.0.0.1" "curl");
    [reflexivity|reflexivity|discriminate|discriminate|simpl; lia|simpl; lia].
Defined.

(** ** Ordered labels, again *)

(** X12.  The two lists that [OrderLabels] builds hold the static labels
    without loss: pairing the names with the values position by
    position gives back the mapping, and there are as many of each as
    the mapping has labels. *)
Theorem OrderLabels_lists_rebuild_labels {RC : Type} (c : NamespaceConfig RC)
    (iteration : list string) :
  ranges iteration (Labels c) →
  list_to_map (zip (OrderedLabelNames (OrderLabels iteration c))
                 (OrderedLabelValues (OrderLabels iteration c)))
  = Labels c
  ∧ length (OrderedLabelNames (OrderLabels iteration c)) = size (Labels c)
  ∧ length (OrderedLabelValues (OrderLabels iteration c)) = size (Labels c)
  ∧ Labels (OrderLabels iteration c) = Labels c.
Proof.
  intros Hit.
  rewrite OrderedLabelNames_OrderLabels, OrderedLabelValues_OrderLabels.
  set (names := sort_Strings iteration).
  set (values := fillValues (Labels c) 0 names (replicate (size (Labels c)) "")).
  assert (names ≡ₚ elements (dom (Labels c))) as Hperm.
  { unfold names. by rewrite sort_Strings_Permutation. }
  assert (length names = size (Labels c)) as Hlen.
  { rewrite Hperm. apply ranges_length. by unfold ranges. }
  assert (length values = size (Labels c)) as Hlen'.
  { unfold values. by rewrite length_fillValues, length_replicate. }
  assert (NoDup names) as Hnd by (rewrite Hperm; apply NoDup_elements).
  assert ((zip names values).*1 = names) as Hfst by (apply fst_zip; lia).
  split_and!; [|done|done|done].
  apply map_eq. intros k.
  destruct (Labels c !! k) as [v|] eqn:Hk.
  - apply elem_of_list_to_map_1; [by rewrite Hfst|].
    assert (k ∈ names) as Hin.
    { rewrite Hperm, elem_of_elements. apply elem_of_dom. by exists v. }
    apply list_elem_of_lookup_1 in Hin as [i Hi].
    apply (list_elem_of_lookup_2 _ i). apply lookup_zip_Some. split; [done|].
    unfold values. rewrite (fillValues_lookup (Labels c) 0 i names _ k Hi).
    + by rewrite Hk.
    + rewrite length_replicate, <- Hlen. by eapply lookup_lt_Some.
  - apply not_elem_of_list_to_map_1. rewrite Hfst, Hperm, elem_of_elements.
    rewrite elem_of_dom, Hk. by intros [? ?].
Qed.

Lemma OrderLabels_lists_rebuild_labels_witness :
  list_to_map
    (zip (OrderedLabelNames (OrderLabels ["zone"; "app"; "env"] Sample.labelled))
       (OrderedLabelValues (OrderLabels ["zone"; "app"; "env"] Sample.labelled)))
  = Labels Sample.labelled.
Proof.
  apply (OrderLabels_lists_rebuild_labels Sample.labelled ["zone"; "app"; "env"]).
  unfold ranges. refine (bool_decide_unpack _ _). vm_compute. exact I.
Defined.

(** ** Deprecated and globbed sources *)

Section SourceFacts.
Context {RC : Type}.
Variable Glob : string → list string + error.
Implicit Types (c : Namespace RC) (files : list string).

(** X13.  [ResolveDeprecations] is idempotent and leaves the verdict of
    [DeprecationWarnings] as it was.  When [source_files] is not empty
    it replaces the files of the source, whatever they were, and without
    it the configuration is unchanged. *)
Theorem ResolveDeprecations_idempotent c :
  ResolveDeprecations (ResolveDeprecations c) = ResolveDeprecations c
  ∧ DeprecationWarnings (ResolveDeprecations c) = DeprecationWarnings c
  ∧ SourceFiles (ResolveDeprecations c) = SourceFiles c
  ∧ (SourceFiles c ≠ [] →
       Files (Source (ResolveDeprecations c)) = SourceFiles c
       ∧ DeprecationWarnings c ≠ None)
  ∧ (SourceFiles c = [] →
       ResolveDeprecations c = c ∧ DeprecationWarnings c = None).
Proof.
  unfold ResolveDeprecations, DeprecationWarnings.
  destruct (decide (0 < length (SourceFiles c))%nat) as [Hpos|Hnil].
  - split_and!; try done.
    + simpl. by rewrite decide_True.
    + simpl. by rewrite decide_True.
    + intros Hs. rewrite Hs in Hpos. simpl in Hpos. lia.
  - rewrite !decide_False by done. split_and!; try done.
    intros Hne. destruct (SourceFiles c); [done|]. simpl in Hnil. lia.
Qed.

Lemma resolveFiles_ok files (resolved : list string) (logged : list logEntry) :
  Forall (λ sf, containsStar sf = true → ∃ matches, Glob sf = inl matches) files →
  ∃ logged',
    resolveFiles Glob files resolved logged
    = (resolved ++ concat (expansion Glob <$> files), None, logged ++ logged')
    ∧ length logged' = length files.
Proof.
  intros Hok. revert resolved logged.
  induction Hok as [|sf files Hsf _ IH]; intros resolved logged.
  - exists []. by rewrite !app_nil_r.
  - simpl. unfold expansion at 1.
    destruct (containsStar sf) eqn:Hstar.
    + destruct (Hsf eq_refl) as [matches Hm]. rewrite Hm.
      destruct (IH (resolved ++ matches)
                  (logged ++ [Infof ("Resolved globs " +:+ sf +:+ " to "
                                     +:+ formatStrings matches)]))
        as (logged' & -> & Hlen).
      eexists (_ :: logged'). rewrite <- !app_assoc. split; [done|].
      simpl. by rewrite Hlen.
    + destruct (IH (resolved ++ [sf]) (logged ++ [Warnf ("No globs for " +:+ sf)]))
        as (logged' & -> & Hlen).
      eexists (_ :: logged'). rewrite <- !app_assoc. split; [done|].
      simpl. by rewrite Hlen.
Qed.

Lemma resolveFiles_plain files (resolved : list string) (logged : list logEntry) :
  Forall (λ sf, containsStar sf = false) files →
  resolveFiles Glob files resolved logged
  = (resolved ++ files, None,
     logged ++ ((λ sf, Warnf ("No globs for " +:+ sf)) <$> files)).
Proof.
  intros Hplain. revert resolved logged.
  induction Hplain as [|sf files Hsf _ IH]; intros resolved logged.
  - by rewrite !app_nil_r.
  - simpl. rewrite Hsf, IH. by rewrite <- !app_assoc.
Qed.

Lemma resolveFiles_error files (pre post : list string) (sf : string) (err : error)
    (resolved : list string) (logged : list logEntry) :
  files = pre ++ sf :: post →
  Forall (λ sf, containsStar sf = true → ∃ matches, Glob sf = inl matches) pre →
  containsStar sf = true → Glob sf = inr err →
  ∃ resolved' logged',
    resolveFiles Glob files resolved logged = (resolved', Some err, logged ++ logged')
    ∧ length logged' = length pre.
Proof.
  intros -> Hpre Hstar Herr. revert resolved logged.
  induction Hpre as [|sf' pre Hsf _ IH]; intros resolved logged.
  - simpl. rewrite Hstar, Herr. exists resolved, []. by rewrite app_nil_r.
  - simpl. destruct (containsStar sf') eqn:Hstar'.
    + destruct (Hsf eq_refl) as [matches Hm]. rewrite Hm.
      destruct (IH (resolved ++ matches)
                  (logged ++ [Infof ("Resolved globs " +:+ sf' +:+ " to "
                                     +:+ formatStrings matches)]))
        as (resolved' & logged' & -> & Hlen).
      eexists resolved', (_ :: logged'). rewrite <- !app_assoc.
      split; [done|]. simpl. by rewrite Hlen.
    + destruct (IH (resolved ++ [sf'])
                  (logged ++ [Warnf ("No globs for " +:+ sf')]))
        as (resolved' & logged' & -> & Hlen).
      eexists resolved', (_ :: logged'). rewrite <- !app_assoc.
      split; [done|]. simpl. by rewrite Hlen.
Qed.

(** X14.  When none of the configured files holds a "*", [ResolveGlobs]
    never calls the file system: it returns no error, keeps the files as
    they are, copies them into [source_files], and warns once per file. *)
Theorem ResolveGlobs_without_patterns c :
  Files (Source c) ≠ [] →
  Forall (λ sf, containsStar sf = false) (Files (Source c)) →
  ResolveGlobs Glob c =
    (setFiles c (Files (Source c)) (Files (Source c)), None,
     (λ sf, Warnf ("No globs for " +:+ sf)) <$> Files (Source c)).
Proof.
  intros Hne Hplain. unfold ResolveGlobs.
  rewrite decide_True by (destruct (Files (Source c)); [done|simpl; lia]).
  by rewrite (resolveFiles_plain _ [] [] Hplain).
Qed.

(** X15.  When every pattern among the configured files resolves,
    [ResolveGlobs] returns no error and replaces the files by their
    expansions, in order: a file without "*" stands for itself, a
    pattern for its matches.  [source_files] becomes the same list, so
    that [ResolveDeprecations] then changes nothing and
    [DeprecationWarnings] complains exactly when a file is left, even if
    [source_files] was never configured.  One log entry is made per
    configured file, and without files nothing happens. *)
Theorem ResolveGlobs_expands_in_order c :
  Forall (λ sf, containsStar sf = true → ∃ matches, Glob sf = inl matches)
    (Files (Source c)) →
  (ResolveGlobs Glob c).1.2 = None
  ∧ length (ResolveGlobs Glob c).2 = length (Files (Source c))
  ∧ core (ResolveGlobs Glob c).1.1 = core c
  ∧ (Files (Source c) = [] → ResolveGlobs Glob c = (c, None, []))
  ∧ (Files (Source c) ≠ [] →
       Files (Source (ResolveGlobs Glob c).1.1)
       = concat (expansion Glob <$> Files (Source c))
       ∧ SourceFiles (ResolveGlobs Glob c).1.1
         = Files (Source (ResolveGlobs Glob c).1.1)
       ∧ ResolveDeprecations (ResolveGlobs Glob c).1.1
         = (ResolveGlobs Glob c).1.1
       ∧ (DeprecationWarnings (ResolveGlobs Glob c).1.1 = None
          ↔ Files (Source (ResolveGlobs Glob c).1.1) = [])).
Proof.
  intros Hok. unfold ResolveGlobs.
  destruct (decide (0 < length (Files (Source c)))%nat) as [Hpos|Hnil].
  - destruct (resolveFiles_ok _ [] [] Hok) as (logged' & -> & Hlen).
    simpl. split_and!; [done|done|done| |].
    + intros Hf. rewrite Hf in Hpos. simpl in Hpos. lia.
    + intros _. split_and!; [done|done| |].
      * unfold ResolveDeprecations. simpl.
        by destruct (decide (0 < length _)%nat).
      * unfold DeprecationWarnings. simpl.
        by destruct (concat (expansion Glob <$> Files (Source c))).
  - assert (Files (Source c) = []) as Hf
      by (destruct (Files (Source c)); [done|simpl in Hnil; lia]).
    simpl. rewrite Hf. by split_and!.
Qed.

(** X16.  When a pattern among the configured files does not resolve,
    [ResolveGlobs] returns the error of the first such pattern and
    leaves the configuration as it was; the files before it have been
    logged. *)
Theorem ResolveGlobs_error_changes_nothing c (pre post : list string)
    (sf : string) (err : error) :
  Files (Source c) = pre ++ sf :: post →
  Forall (λ sf, containsStar sf = true → ∃ matches, Glob sf = inl matches) pre →
  containsStar sf = true →
  Glob sf = inr err →
  (ResolveGlobs Glob c).1 = (c, Some err)
  ∧ length (ResolveGlobs Glob c).2 = length pre.
Proof.
  intros Hfiles Hpre Hstar Herr. unfold ResolveGlobs.
  rewrite decide_True by (rewrite Hfiles, length_app; simpl; lia).
  destruct (resolveFiles_error _ pre post sf err [] [] Hfiles Hpre Hstar Herr)
    as (resolved' & logged' & -> & Hlen).
  by simpl.
Qed.
End SourceFacts.

Lemma ResolveDeprecations_idempotent_witness :
  Files (Source (ResolveDeprecations
                   (SampleConfig.sources ["/var/log/old.log"] ["/var/log/a.log"])))
  = ["/var/log/old.log"].
Proof.
  apply (ResolveDeprecations_idempotent
           (SampleConfig.sources ["/var/log/old.log"] ["/var/log/a.log"])).
  discriminate.
Defined.

Lemma ResolveGlobs_without_patterns_witness :
  (ResolveGlobs SampleConfig.Glob
     (SampleConfig.sources [] ["/var/log/a.log"; "/var/log/b.log"])).1
  = (SampleConfig.sources ["/var/log/a.log"; "/var/log/b.log"]
       ["/var/log/a.log"; "/var/log/b.log"], None).
Proof.
  rewrite (ResolveGlobs_without_patterns SampleConfig.Glob
             (SampleConfig.sources [] ["/var/log/a.log"; "/var/log/b.log"])).
  - reflexivity.
  - discriminate.
  - simpl. repeat constructor.
Defined.

Lemma ResolveGlobs_expands_in_order_witness :
  Files (Source (ResolveGlobs SampleConfig.Glob
                   (SampleConfig.sources []
                      ["/var/log/a.log"; "/var/log/nginx/*.log"])).1.1)
  = ["/var/log/a.log"; "/var/log/nginx/access.log"; "/var/log/nginx/error.log"].
Proof.
  destruct (ResolveGlobs_expands_in_order SampleConfig.Glob
              (SampleConfig.sources []
                 ["/var/log/a.log"; "/var/log/nginx/*.log"]))
    as (_ & _ & _ & _ & H).
  - simpl. repeat constructor; [discriminate|].
    intros _. eexists. reflexivity.
  - destruct H as (-> & _); [discriminate|]. reflexivity.
Defined.

Lemma ResolveGlobs_error_changes_nothing_witness :
  (ResolveGlobs SampleConfig.Glob
     (SampleConfig.sources [] ["/var/log/nginx/*.log"; "/var/log/[*.log"])).1
  = (SampleConfig.sources [] ["/var/log/nginx/*.log"; "/var/log/[*.log"],
     Some "syntax error in pattern").
Proof.
  apply (ResolveGlobs_error_changes_nothing SampleConfig.Glob
           (SampleConfig.sources [] ["/var/log/nginx/*.log"; "/var/log/[*.log"])
           ["/var/log/nginx/*.log"] [] "/var/log/[*.log"
           "syntax error in pattern").
  - reflexivity.
  - repeat constructor. intros _. eexists. reflexivity.
  - reflexivity.
  - reflexivity.
Defined.

(** ** Compiling a namespace *)

Section CompileFacts.
Context {RC : Type}.
Variable compileRelabel : RC → RC * option error.
Implicit Types (c : Namespace RC) (cfgs : list RC).

Lemma compileRelabels_ok cfgs :
  Forall (λ r, (compileRelabel r).2 = None) cfgs →
  compileRelabels compileRelabel cfgs = ((λ r, (compileRelabel r).1) <$> cfgs, None).
Proof.
  induction 1 as [|r cfgs Hr _ IH]; [done|].
  simpl. destruct (compileRelabel r) as [r' [err|]]; [done|].
  by rewrite IH.
Qed.

Lemma compileRelabels_error (pre post : list RC) (r r' : RC) (err : error) :
  Forall (λ r, (compileRelabel r).2 = None) pre →
  compileRelabel r = (r', Some err) →
  compileRelabels compileRelabel (pre ++ r :: post)
  = (((λ r, (compileRelabel r).1) <$> pre) ++ r' :: post, Some err).
Proof.
  intros Hpre Hr. induction Hpre as [|r0 pre Hr0 _ IH]; simpl.
  - by rewrite Hr.
  - destruct (compileRelabel r0) as [r0' [err0|]]; [done|].
    by rewrite IH.
Qed.

(** X17.  [Compile] returns the error of the first relabeling
    configuration that does not compile.  The configurations before it
    have been compiled, those after it are untouched, and the ordered
    labels, the namespace labels and the prefix are left as they were;
    [MustCompile] panics. *)
Theorem Compile_stops_at_first_error (iteration : list string) c
    (pre post : list RC) (r r' : RC) (err : error) :
  RelabelConfigs (core c) = pre ++ r :: post →
  Forall (λ r, (compileRelabel r).2 = None) pre →
  compileRelabel r = (r', Some err) →
  (Compile compileRelabel iteration c).2 = Some err
  ∧ MustCompile compileRelabel iteration c = None
  ∧ RelabelConfigs (core (Compile compileRelabel iteration c).1)
    = ((λ r, (compileRelabel r).1) <$> pre) ++ r' :: post
  ∧ OrderedLabelNames (core (Compile compileRelabel iteration c).1)
    = OrderedLabelNames (core c)
  ∧ OrderedLabelValues (core (Compile compileRelabel iteration c).1)
    = OrderedLabelValues (core c)
  ∧ NamespaceLabels (Compile compileRelabel iteration c).1 = NamespaceLabels c
  ∧ NamespacePrefix (Compile compileRelabel iteration c).1 = NamespacePrefix c.
Proof.
  intros Hcfgs Hpre Hr. unfold MustCompile, Compile.
  rewrite Hcfgs, (compileRelabels_error pre post r r' err Hpre Hr).
  by simpl.
Qed.

Lemma initial_labelValues {RelabelConfig : Type}
    (NewRelabelings : list RelabelConfig → list Relabeling)
    (DefaultRelabelings : list Relabeling)
    (UniqueRelabelings StripExcluded : list Relabeling → list Relabeling)
    (nsCfg : NamespaceConfig RelabelConfig) :
  labelValues (initial NewRelabelings DefaultRelabelings UniqueRelabelings
                 StripExcluded nsCfg)
  = OrderedLabelValues nsCfg
    ++ replicate (length (relabelings NewRelabelings DefaultRelabelings
                            UniqueRelabelings StripExcluded nsCfg)) "".
Proof.
  simpl. unfold copy, totalLabelCount, staticLabelValues.
  rewrite length_replicate, take_ge by lia.
  rewrite drop_replicate. do 2 f_equal. lia.
Qed.

(** X18.  When all relabeling configurations compile, [Compile]
    succeeds: the prefix is that of the override if there is one and
    the name otherwise, a namespace label name yields the one label that
    maps it to the name, and the label names are the keys of the labels
    in increasing order.  A pipeline started on the compiled namespace
    then has a label vector made of the values of the static labels, in
    the order of their names, followed by one empty string per
    relabeling rule. *)
Theorem Compile_prepares_the_label_vector (iteration : list string) c
    (NewRelabelings : list RC → list Relabeling)
    (DefaultRelabelings : list Relabeling)
    (UniqueRelabelings StripExcluded : list Relabeling → list Relabeling) :
  Forall (λ r, (compileRelabel r).2 = None) (RelabelConfigs (core c)) →
  ranges iteration (Labels (core c)) →
  let compiled := (Compile compileRelabel iteration c).1 in
  let rules := relabelings NewRelabelings DefaultRelabelings UniqueRelabelings
                 StripExcluded (core compiled) in
  (Compile compileRelabel iteration c).2 = None
  ∧ MustCompile compileRelabel iteration c = Some compiled
  ∧ NamespacePrefix compiled = default (Name (core c)) (MetricsOverride c)
  ∧ (NamespaceLabelName c ≠ "" →
       NamespaceLabels compiled
       = Some {[ NamespaceLabelName c := Name (core c) ]})
  ∧ (NamespaceLabelName c = "" → NamespaceLabels compiled = NamespaceLabels c)
  ∧ RelabelConfigs (core compiled)
    = (λ r, (compileRelabel r).1) <$> RelabelConfigs (core c)
  ∧ Labels (core compiled) = Labels (core c)
  ∧ StronglySorted String.le (OrderedLabelNames (core compiled))
  ∧ OrderedLabelNames (core compiled) ≡ₚ elements (dom (Labels (core c)))
  ∧ (∀ i k, OrderedLabelNames (core compiled) !! i = Some k →
       labelValues (initial NewRelabelings DefaultRelabelings UniqueRelabelings
                      StripExcluded (core compiled)) !! i
       = Labels (core c) !! k)
  ∧ labelValues (initial NewRelabelings DefaultRelabelings UniqueRelabelings
                   StripExcluded (core compiled))
    = OrderedLabelValues (core compiled) ++ replicate (length rules) ""
  ∧ totalLabelCount NewRelabelings DefaultRelabelings UniqueRelabelings
      StripExcluded (core compiled)
    = (size (Labels (core c)) + length rules)%nat.
Proof.
  intros Hok Hit compiled rules.
  assert (Compile compileRelabel iteration c =
            ({| core := OrderLabels iteration
                          (setRelabelConfigs (core c)
                             ((λ r, (compileRelabel r).1)
                                <$> RelabelConfigs (core c)));
                NamespaceLabelName := NamespaceLabelName c;
                NamespaceLabels :=
                  if decide (NamespaceLabelName c = "") then NamespaceLabels c
                  else Some {[ NamespaceLabelName c := Name (core c) ]};
                MetricsOverride := MetricsOverride c;
                NamespacePrefix :=
                  match MetricsOverride c with
                  | Some prefix => prefix
                  | None => Name (core c)
                  end;
                SourceFiles := SourceFiles c; Source := Source c |}, None))
    as Hc.
  { unfold Compile. by rewrite (compileRelabels_ok _ Hok). }
  set (base := setRelabelConfigs (core c)
                 ((λ r, (compileRelabel r).1) <$> RelabelConfigs (core c)))
    in Hc.
  assert (core compiled = OrderLabels iteration base) as Hcore
    by (unfold compiled; by rewrite Hc).
  assert (Labels base = Labels (core c)) as Hlabels by done.
  assert (OrderedLabelNames (core compiled) = sort_Strings iteration) as Hnames
    by (by rewrite Hcore, OrderedLabelNames_OrderLabels).
  assert (sort_Strings iteration ≡ₚ elements (dom (Labels (core c)))) as Hperm
    by (by rewrite sort_Strings_Permutation).
  assert (length (sort_Strings iteration) = size (Labels (core c))) as Hlen.
  { rewrite Hperm. apply ranges_length. by unfold ranges. }
  assert (length (OrderedLabelValues (core compiled)) = size (Labels (core c)))
    as Hlen'.
  { rewrite Hcore, OrderedLabelValues_OrderLabels.
    by rewrite length_fillValues, length_replicate. }
  split_and!.
  - by rewrite Hc.
  - unfold MustCompile, compiled. by rewrite Hc.
  - unfold compiled. rewrite Hc. simpl. by destruct (MetricsOverride c).
  - intros Hne. unfold compiled. rewrite Hc. simpl. by rewrite decide_False.
  - intros He. unfold compiled. rewrite Hc. simpl. by rewrite decide_True.
  - by rewrite Hcore.
  - by rewrite Hcore.
  - rewrite Hnames. apply (StronglySorted_merge_sort String.le); apply _.
  - by rewrite Hnames.
  - intros i k Hk. rewrite initial_labelValues.
    rewrite lookup_app_l by (rewrite Hlen', <- Hlen, <- Hnames;
                             by eapply lookup_lt_Some).
    rewrite Hnames in Hk. rewrite Hcore, OrderedLabelValues_OrderLabels.
    assert (is_Some (Labels (core c) !! k)) as [v Hv].
    { apply elem_of_dom. rewrite <- elem_of_elements, <- Hperm.
      by eapply list_elem_of_lookup_2. }
    rewrite Hlabels.
    rewrite (fillValues_lookup (Labels (core c)) 0 i _ _ k Hk).
    + by rewrite Hv.
    + rewrite length_replicate, <- Hlen. by eapply lookup_lt_Some.
  - apply initial_labelValues.
  - unfold totalLabelCount, staticLabelValues. by rewrite Hlen'.
Qed.
End CompileFacts.

Lemma Compile_stops_at_first_error_witness :
  (Compile SampleConfig.compileRelabel ["app"; "zone"]
     (SampleConfig.relabelled
        [Sample.passthrough "status" "status"; Sample.passthrough "" "broken";
         Sample.passthrough "method" "method"])).2
  = Some "missing source".
Proof.
  apply (Compile_stops_at_first_error SampleConfig.compileRelabel
           ["app"; "zone"]
           (SampleConfig.relabelled
              [Sample.passthrough "status" "status";
               Sample.passthrough "" "broken";
               Sample.passthrough "method" "method"])
           [Sample.passthrough "status" "status"]
           [Sample.passthrough "method" "method"]
           (Sample.passthrough "" "broken") (Sample.passthrough "" "broken")
           "missing source").
  - reflexivity.
  - by repeat constructor.
  - reflexivity.
Defined.

Lemma Compile_prepares_the_label_vector_witness :
  labelValues
    (initial Sample.NewRelabelings Sample.DefaultRelabelings
       Sample.UniqueRelabelings Sample.StripExcluded
       (core (Compile SampleConfig.compileRelabel ["zone"; "app"]
                (SampleConfig.relabelled
                   [Sample.passthrough "status" "status"])).1))
  = ["shop"; "eu"; ""].
Proof.
  destruct (Compile_prepares_the_label_vector SampleConfig.compileRelabel
              ["zone"; "app"]
              (SampleConfig.relabelled [Sample.passthrough "status" "status"])
              Sample.NewRelabelings Sample.DefaultRelabelings
              Sample.UniqueRelabelings Sample.StripExcluded)
    as (_ & _ & _ & _ & _ & _ & _ & _ & _ & _ & H & _).
  - by repeat constructor.
  - unfold ranges. refine (bool_decide_unpack _ _). vm_compute. exact I.
  - rewrite H. vm_compute. reflexivity.
Defined.
